(** * Multinomial power analysis: the test statistic and the Monte Carlo
      power estimator of [multinomial_power_analysis.ipynb]

    The notebook defines two functions over numpy arrays,

      - [sum_of_relative_squared_differences(x, n, p)] (cell 12), and
      - [power(p, n, alpha, p_null, nsim)] (cell 30).

    Both are embedded here over an interface [Float64] of the scalar
    operations numpy performs on float64 values.  The interface has two
    instances: [B64.binary64], IEEE 754 double precision with
    round-to-nearest-even (what numpy executes), and [Exact.rational],
    the rationals (the arithmetic the formulas are read in on paper,
    faithful wherever no divisor is zero).  One-dimensional arrays are
    lists, an exception that propagates to the caller is the result
    [None], and the two scipy primitives [power] calls (the multinomial
    sampler, which reads and advances numpy's global random generator,
    and the chi-squared CDF) are parameters of [power]. What a call
    leaves behind is read off a second embedding of the two bodies
    ([Store]), on a store of mutable array objects. *)

From Stdlib Require Import ZArith List Bool Lia Permutation.
From Stdlib Require Import QArith Qcanon.
From Stdlib Require Import Floats.SpecFloat.
Import ListNotations.

Local Open Scope Z_scope.

(** * The model *)

(** ** Scalar arithmetic of numpy float64 *)

Class Float64 (F : Type) : Type := {
  f_zero : F;                     (* 0.0 *)
  f_one : F;                      (* 1.0 *)
  f_add : F -> F -> F;            (* a + b *)
  f_sub : F -> F -> F;            (* a - b *)
  f_mul : F -> F -> F;            (* a * b *)
  f_div : F -> F -> F;            (* a / b *)
  f_of_int : Z -> F;              (* int -> float64 conversion *)
  f_lt : F -> F -> bool;          (* a < b *)
  f_eq : F -> F -> bool           (* a == b *)
}.

(** ** The numpy operations the notebook uses, on 1-D arrays *)

Section Numpy.
Context {F : Type} `{Float64 F}.

(** Shape of the result of an elementwise operation on 1-D arrays of
    lengths [a] and [b]: equal lengths, or one of them is 1 and is
    stretched; anything else raises [ValueError]. *)
Definition broadcast_shape (a b : nat) : option nat :=
  if Nat.eqb a b then Some a
  else if Nat.eqb a 1 then Some b
  else if Nat.eqb b 1 then Some a
  else None.

(** An array seen at a broadcast shape. *)
Definition broadcast_to {A : Type} (l : list A) (m : nat) : list A :=
  match l with
  | [a] => repeat a m
  | _ => l
  end.

Fixpoint zip_with {A B C : Type} (f : A -> B -> C)
    (l : list A) (r : list B) : list C :=
  match l, r with
  | a :: l', b :: r' => f a b :: zip_with f l' r'
  | _, _ => []
  end.

(** Elementwise binary operation with broadcasting. *)
Definition elementwise {A B C : Type} (f : A -> B -> C)
    (l : list A) (r : list B) : option (list C) :=
  match broadcast_shape (length l) (length r) with
  | Some m => Some (zip_with f (broadcast_to l m) (broadcast_to r m))
  | None => None
  end.

(** [np.sum] of a float64 array: the additive reduction, started at 0.0
    and run in index order. That is the order numpy uses for arrays of
    fewer than eight elements. Arrays of eight elements or more numpy
    adds in blocks: where addition rounds, its result can differ from
    this one in the last bits, so the binary64 values computed below are
    of arrays of fewer than eight elements, and the statements about
    longer arrays hold for every order of the additions or take exact
    additions as a hypothesis. (Recent numpy starts at -0.0, which
    changes the result only when every entry is -0.0.) *)
Definition np_sum (a : list F) : F := fold_left f_add a f_zero.

(** [a ** 2] on a float64 array is [np.square]: each element times
    itself. *)
Definition f_square (d : F) : F := f_mul d d.

Definition f_of_bool (b : bool) : F := if b then f_one else f_zero.

(** [.mean()] of a boolean array: the float64 sum of the entries divided
    by their number. *)
Definition mean (flags : list bool) : F :=
  f_div (np_sum (map f_of_bool flags))
        (f_of_int (Z.of_nat (length flags))).

(** [np.ones_like(p)] *)
Definition ones_like (p : list F) : list F := map (fun _ => f_one) p.

(** ** The test statistic (cell 12)

<<
def sum_of_relative_squared_differences(x, n, p):
    expect = p * n
    return np.sum((expect - x)**2 / expect)
>>
    [x] is an integer array, [n] an integer, [p] a float64 array. *)

Definition expect_of (n : Z) (p : list F) : list F :=
  map (fun p_i => f_mul p_i (f_of_int n)) p.

Definition sum_of_relative_squared_differences
    (x : list Z) (n : Z) (p : list F) : option F :=
  let expect := expect_of n p in
  match elementwise (fun e x_i => f_sub e (f_of_int x_i)) expect x with
  | None => None
  | Some diff =>
      match elementwise f_div (map f_square diff) expect with
      | None => None
      | Some quotients => Some (np_sum quotients)
      end
  end.

(** The divisions the call performs, as (dividend, divisor) pairs in
    index order. *)
Definition divisions (x : list Z) (n : Z) (p : list F)
    : option (list (F * F)) :=
  let expect := expect_of n p in
  match elementwise (fun e x_i => f_sub e (f_of_int x_i)) expect x with
  | None => None
  | Some diff => elementwise pair (map f_square diff) expect
  end.

(** The statistic as the specification words it: with
    [expected_i = p_i * n], the sum over the categories [i] of
    [(expected_i - x_i)^2 / expected_i]. *)
Definition expected_at (n : Z) (p : list F) (i : nat) : F :=
  f_mul (nth i p f_zero) (f_of_int n).

Definition term_at (x : list Z) (n : Z) (p : list F) (i : nat) : F :=
  f_div (f_square (f_sub (expected_at n p i) (f_of_int (nth i x 0))))
        (expected_at n p i).

Definition TestStatistic_spec (x : list Z) (n : Z) (p : list F) : F :=
  np_sum (map (term_at x n p) (seq 0 (length p))).

(** The quotients the call adds up, when [x] and [p] have one length. *)
Definition terms (x : list Z) (n : Z) (p : list F) : list F :=
  zip_with f_div
    (map f_square
         (zip_with (fun e x_i => f_sub e (f_of_int x_i)) (expect_of n p) x))
    (expect_of n p).

End Numpy.

(** The array [l] with its entries taken in the order [sigma] of the
    indices: entry [i] of the result is entry [sigma_i] of [l]. *)
Definition permute {A : Type} (sigma : list nat) (l : list A) (d : A)
    : list A :=
  map (fun i => nth i l d) sigma.

(** ** The integers of the program

    The entries of a count vector are int64; the sample size [n] is a
    Python int. Where a float64 array meets an int, the int is converted
    to float64: Python raises [OverflowError] for an int that rounds to
    2^1024 or beyond, that is from 2^1024 - 2^970 on. The conversion
    [f_of_int] of the model is defined on every integer; a statement that
    says of a call that it returns keeps [n] within the integers the
    conversion accepts. *)

Definition int64 (z : Z) : Prop := - 2 ^ 63 <= z < 2 ^ 63.

Definition converts_to_float (z : Z) : Prop :=
  Z.abs z < 2 ^ 1024 - 2 ^ 970.

(** ** IEEE 754 binary64, the arithmetic numpy runs *)

Module B64.

Definition prec : Z := 53.
Definition emax : Z := 1024.

Definition float : Type := spec_float.

(** Conversion of an integer, rounded to the nearest double. An integer
    that is not [converts_to_float] (for which Python raises) comes out
    as an infinity here. *)
Definition of_int (z : Z) : float := binary_normalize prec emax z 0 false.

#[global] Instance binary64 : Float64 float := {
  f_zero := S754_zero false;
  f_one := of_int 1;
  f_add := SFadd prec emax;
  f_sub := SFsub prec emax;
  f_mul := SFmul prec emax;
  f_div := SFdiv prec emax;
  f_of_int := of_int;
  f_lt := SFltb;
  f_eq := SFeqb
}.

(** The double a decimal literal [a/b] denotes: the quotient of two
    exactly representable integers, correctly rounded. *)
Definition ratio (a b : Z) : float := SFdiv prec emax (of_int a) (of_int b).

(** The double [2^e]. *)
Definition pow2 (e : Z) : float := binary_normalize prec emax 1 e false.

Definition is_nan (v : float) : bool :=
  match v with S754_nan => true | _ => false end.

Definition is_inf (v : float) : bool :=
  match v with S754_infinity _ => true | _ => false end.

(** NaN or an infinity: what a float64 division by zero leaves. *)
Definition anomalous (v : float) : bool := is_nan v || is_inf v.

End B64.

(** ** Exact rational arithmetic, the arithmetic of the formulas on paper

    [a / 0] is [0] here, unlike numpy; statements about this instance
    keep every divisor away from zero by hypothesis. *)

Module Exact.

Definition of_int (z : Z) : Qc := Q2Qc (inject_Z z).

Definition ltb (a b : Qc) : bool :=
  match (a ?= b)%Qc with Lt => true | _ => false end.

#[global] Instance rational : Float64 Qc := {
  f_zero := Q2Qc 0;
  f_one := Q2Qc 1;
  f_add := Qcplus;
  f_sub := Qcminus;
  f_mul := Qcmult;
  f_div := Qcdiv;
  f_of_int := of_int;
  f_lt := ltb;
  f_eq := Qc_eq_bool
}.

Definition ratio (a b : Z) : Qc := Qcdiv (of_int a) (of_int b).

End Exact.

(** ** The power estimator (cell 30)

<<
def power(p, n, alpha=0.05, p_null=None, nsim=1000):
    k = p.shape[0]
    if p_null is None:
        p_null = np.ones_like(p) / k

    x_sim = sp.stats.multinomial.rvs(n, p, size=nsim)
    df = k - 1
    statistic_sim = np.apply_along_axis(
        lambda y: sum_of_relative_squared_differences(y, n, p_null),
        axis=1,
        arr=x_sim
                                        )
    pvalue_sim = 1 - sp.stats.chi2.cdf(statistic_sim, df)
    return (pvalue_sim < alpha).mean()
>>
    [sp.stats.multinomial.rvs] is called without a [random_state], so it
    draws from numpy's global generator and leaves it advanced: a
    computation here is a function of the generator state [G] that
    returns a result, or [None] when an exception propagates, together
    with the generator state it leaves behind. *)

Section Power.
Context {F : Type} `{Float64 F}.

(** State of numpy's global random generator. *)
Variable G : Type.

(** [sp.stats.multinomial.rvs(n, p, size)]: a [size] x [len(p)] integer
    array of draws, or an exception. *)
Variable multinomial_rvs :
  Z -> list F -> nat -> G -> option (list (list Z)) * G.

(** [sp.stats.chi2.cdf(statistic, df)] on one float64 value. *)
Variable chi2_cdf : F -> Z -> F.

Definition M (A : Type) : Type := G -> option A * G.

Definition ret {A : Type} (a : A) : M A := fun g => (Some a, g).

Definition bind {A B : Type} (m : M A) (f : A -> M B) : M B :=
  fun g =>
    match m g with
    | (Some a, g') => f a g'
    | (None, g') => (None, g')
    end.

(** A call that does not touch the generator. *)
Definition lift {A : Type} (r : option A) : M A := fun g => (r, g).

Notation "x <- m ;; f" := (bind m (fun x => f))
  (at level 61, m at next level, right associativity).

Fixpoint map_rows {A B : Type} (f : A -> option B) (rows : list A)
    : option (list B) :=
  match rows with
  | [] => Some []
  | r :: rows' =>
      match f r with
      | None => None
      | Some v =>
          match map_rows f rows' with
          | None => None
          | Some vs => Some (v :: vs)
          end
      end
  end.

(** [np.apply_along_axis(f, axis=1, arr)] on a 2-D array with a scalar
    valued [f]: [f] on every row; an array without rows is refused with
    [ValueError]. *)
Definition apply_along_axis {A B : Type} (f : A -> option B)
    (arr : list A) : option (list B) :=
  match arr with
  | [] => None
  | _ => map_rows f arr
  end.

(** The default of [alpha], the literal [0.05]. *)
Definition alpha_default : F := f_div (f_of_int 5) (f_of_int 100).

Definition nsim_default : nat := 1000.

(** The uniform null [np.ones_like(p) / k]. *)
Definition uniform_null (p : list F) : list F :=
  let k := Z.of_nat (length p) in
  map (fun one => f_div one (f_of_int k)) (ones_like p).

(** The null the body works with after its first statement. *)
Definition null_of (p : list F) (p_null : option (list F)) : list F :=
  match p_null with
  | None => uniform_null p
  | Some q => q
  end.

Definition power (p : list F) (n : Z) (alpha : F)
    (p_null : option (list F)) (nsim : nat) : M F :=
  let k := Z.of_nat (length p) in
  let p_null :=
    match p_null with
    | None => uniform_null p
    | Some q => q
    end in
  x_sim <- multinomial_rvs n p nsim ;;
  let df := k - 1 in
  statistic_sim <-
    lift (apply_along_axis
            (fun y => sum_of_relative_squared_differences y n p_null)
            x_sim) ;;
  let pvalue_sim :=
    map (fun s => f_sub f_one (chi2_cdf s df)) statistic_sim in
  ret (mean (map (fun pv => f_lt pv alpha) pvalue_sim)).

(** The estimate as the specification words it: the p-value of one
    draw, the number of draws whose p-value is strictly below [alpha],
    and that number as a fraction of the draws. *)
Definition pvalue_spec (p_null : list F) (n : Z) (k : nat)
    (draw : list Z) : F :=
  f_sub f_one
        (chi2_cdf (TestStatistic_spec draw n p_null) (Z.of_nat k - 1)).

Definition rejected (p_null : list F) (n : Z) (k : nat) (alpha : F)
    (draws : list (list Z)) : nat :=
  length (filter (fun d => f_lt (pvalue_spec p_null n k d) alpha) draws).

Definition fraction (c m : nat) : F :=
  f_div (f_of_int (Z.of_nat c)) (f_of_int (Z.of_nat m)).

End Power.

Arguments power {F _ G} multinomial_rvs chi2_cdf p n alpha p_null nsim _.
Arguments pvalue_spec {F _} chi2_cdf p_null n k draw.
Arguments rejected {F _} chi2_cdf p_null n k alpha draws.

(** ** The cells that call the two functions

    The notebook's cells work on its global variables; here each is a
    function of the globals it reads. *)

Section Cells.
Context {F : Type} `{Float64 F}.
Variable G : Type.
Variable multinomial_rvs :
  Z -> list F -> nat -> G -> option (list (list Z)) * G.
Variable chi2_cdf : F -> Z -> F.

(** Cell 27 (and cell 25, with [p_sim = p_null]), the rejection rate
    computed inline before [power] is defined:
<<
x_sim = sp.stats.multinomial.rvs(n, p_sim, size=size)
df = p.shape[0] - 1
statistic_sim = np.apply_along_axis(
    lambda y: sum_of_relative_squared_differences(y, n, p_null),
    axis=1, arr=x_sim)
pvalue_sim = 1 - sp.stats.chi2.cdf(statistic_sim, df)
print((pvalue_sim < 0.05).mean())
>>
    [p] is the global an earlier cell left behind. *)
Definition rejection_rate_inline (p p_null p_sim : list F) (n : Z)
    (size : nat) : M G F :=
  bind G (multinomial_rvs n p_sim size) (fun x_sim =>
  let df := Z.of_nat (length p) - 1 in
  bind G (lift G (apply_along_axis
                    (fun y => sum_of_relative_squared_differences y n p_null)
                    x_sim)) (fun statistic_sim =>
  let pvalue_sim :=
    map (fun s => f_sub f_one (chi2_cdf s df)) statistic_sim in
  ret G (mean (map (fun pv => f_lt pv alpha_default) pvalue_sim)))).

(** Cell 34, the power at every sample size of [nn]:
<<
p_reject = [power(p_sim, n, alpha=alpha, nsim=nsim) for n in nn]
>> *)
Fixpoint power_curve (p_sim : list F) (alpha : F) (nsim : nat)
    (nn : list Z) : M G (list F) :=
  match nn with
  | [] => ret G []
  | n :: nn' =>
      bind G (power multinomial_rvs chi2_cdf p_sim n alpha None nsim)
        (fun v =>
      bind G (power_curve p_sim alpha nsim nn') (fun vs =>
      ret G (v :: vs)))
  end.

(** The generator after the sampler has been called for every sample
    size of [nn] in turn. *)
Definition after_draws (p_sim : list F) (nsim : nat) (nn : list Z) (g : G)
    : G :=
  fold_left (fun g n => snd (multinomial_rvs n p_sim nsim g)) nn g.

End Cells.

Arguments rejection_rate_inline {F _ G} multinomial_rvs chi2_cdf
  p p_null p_sim n size _.
Arguments power_curve {F _ G} multinomial_rvs chi2_cdf p_sim alpha nsim nn _.
Arguments after_draws {F G} multinomial_rvs p_sim nsim nn g.

(** ** The two functions on numpy's array objects

    A numpy array is a mutable object, and a function that is handed one
    can write to it. To say what a call leaves behind, the two bodies are
    embedded a second time, as computations on a store of array objects
    and the random generator: a variable holds a reference into the
    store, every numpy expression of the bodies ([p * n], [expect - x],
    [... ** 2], [... / expect], [np.ones_like(p)], [... / k],
    [1 - ...], [... < alpha], and the results of the sampler, of
    [np.apply_along_axis] and of [sp.stats.chi2.cdf]) makes a new array
    object, and [np.sum] and [.mean()] return scalars. Neither body
    contains an assignment to an element or an in-place operation. *)

Module Store.

Section Objects.
Context {F : Type} `{Float64 F}.
Variable G : Type.
Variable multinomial_rvs :
  Z -> list F -> nat -> G -> option (list (list Z)) * G.
Variable chi2_cdf : F -> Z -> F.

Inductive array : Type :=
| Int1 (a : list Z)                 (* 1-D, int64 *)
| Int2 (rows : list (list Z))       (* 2-D, int64 *)
| Float1 (a : list F)               (* 1-D, float64 *)
| Bool1 (a : list bool).            (* 1-D, bool *)

(** The store: the array objects made so far; a reference is a position
    in it. *)
Definition heap : Type := list array.

(** What the count vector of a call is: an array of its own, or the view
    of one row of a 2-D array ([np.apply_along_axis] hands the function
    views into [arr]). *)
Inductive view : Type :=
| Whole (r : nat)
| Row (r : nat) (i : nat).

(** The state a computation runs in: the store and numpy's global random
    generator. *)
Definition world : Type := heap * G.

Definition Run (A : Type) : Type := M world A.

Notation "x <- m ;; f" := (bind world m (fun x => f))
  (at level 61, m at next level, right associativity).

Definition floats_of (h : heap) (r : nat) : option (list F) :=
  match nth_error h r with
  | Some (Float1 a) => Some a
  | _ => None
  end.

Definition bools_of (h : heap) (r : nat) : option (list bool) :=
  match nth_error h r with
  | Some (Bool1 a) => Some a
  | _ => None
  end.

Definition rows_of (h : heap) (r : nat) : option (list (list Z)) :=
  match nth_error h r with
  | Some (Int2 rows) => Some rows
  | _ => None
  end.

Definition ints_of (h : heap) (v : view) : option (list Z) :=
  match v with
  | Whole r =>
      match nth_error h r with
      | Some (Int1 a) => Some a
      | _ => None
      end
  | Row r i =>
      match rows_of h r with
      | Some rows => nth_error rows i
      | None => None
      end
  end.

(** Reading an array through a reference. A reference that holds no
    array of the expected type is outside the model (the result [None]);
    the statements take well-typed arguments. *)
Definition get {A : Type} (read : heap -> option A) : Run A :=
  fun w => (read (fst w), w).

(** A new array object; its reference is returned. *)
Definition new (a : array) : Run nat :=
  fun w => (Some (length (fst w)), (fst w ++ [a], snd w)).

(** [p * n] *)
Definition times_int (p : nat) (n : Z) : Run nat :=
  p_ <- get (fun h => floats_of h p) ;;
  new (Float1 (expect_of n p_)).

(** [expect - x] *)
Definition minus_ints (expect : nat) (x : view) : Run nat :=
  e_ <- get (fun h => floats_of h expect) ;;
  x_ <- get (fun h => ints_of h x) ;;
  d_ <- lift world (elementwise (fun e x_i => f_sub e (f_of_int x_i)) e_ x_) ;;
  new (Float1 d_).

(** [a ** 2] *)
Definition squared (a : nat) : Run nat :=
  a_ <- get (fun h => floats_of h a) ;;
  new (Float1 (map f_square a_)).

(** [a / b] *)
Definition divided_by (a b : nat) : Run nat :=
  a_ <- get (fun h => floats_of h a) ;;
  b_ <- get (fun h => floats_of h b) ;;
  q_ <- lift world (elementwise f_div a_ b_) ;;
  new (Float1 q_).

(** [np.sum(a)] *)
Definition sum (a : nat) : Run F :=
  a_ <- get (fun h => floats_of h a) ;;
  ret world (np_sum a_).

Definition sum_of_relative_squared_differences (x : view) (n : Z) (p : nat)
    : Run F :=
  expect <- times_int p n ;;
  diff <- minus_ints expect x ;;
  square <- squared diff ;;
  quotients <- divided_by square expect ;;
  sum quotients.

(** [np.ones_like(p)] *)
Definition ones (p : nat) : Run nat :=
  p_ <- get (fun h => floats_of h p) ;;
  new (Float1 (ones_like p_)).

(** [a / k] *)
Definition divided_by_int (a : nat) (k : Z) : Run nat :=
  a_ <- get (fun h => floats_of h a) ;;
  new (Float1 (map (fun one => f_div one (f_of_int k)) a_)).

(** [sp.stats.multinomial.rvs(n, p, size)]: the sampler reads [p], draws
    from the generator and returns its draws in a new array. (scipy
    works on a copy of [p].) *)
Definition rvs (n : Z) (p : nat) (size : nat) : Run nat :=
  p_ <- get (fun h => floats_of h p) ;;
  x_sim_ <- (fun w => let (r, g') := multinomial_rvs n p_ size (snd w) in
                      (r, (fst w, g'))) ;;
  new (Int2 x_sim_).

Fixpoint each_row (f : view -> Run F) (arr : nat) (rows : list nat)
    : Run (list F) :=
  match rows with
  | [] => ret world []
  | i :: rows' =>
      v <- f (Row arr i) ;;
      vs <- each_row f arr rows' ;;
      ret world (v :: vs)
  end.

(** [np.apply_along_axis(f, axis=1, arr)]: [f] on the view of every row
    in turn, the values in a new array. *)
Definition apply_along_axis (f : view -> Run F) (arr : nat) : Run nat :=
  rows <- get (fun h => rows_of h arr) ;;
  match rows with
  | [] => lift world None
  | _ =>
      vs <- each_row f arr (seq 0 (length rows)) ;;
      new (Float1 vs)
  end.

(** [sp.stats.chi2.cdf(a, df)] *)
Definition cdf (a : nat) (df : Z) : Run nat :=
  a_ <- get (fun h => floats_of h a) ;;
  new (Float1 (map (fun s => chi2_cdf s df) a_)).

(** [1 - a] *)
Definition one_minus (a : nat) : Run nat :=
  a_ <- get (fun h => floats_of h a) ;;
  new (Float1 (map (fun c => f_sub f_one c) a_)).

(** [a < alpha] *)
Definition less_than (a : nat) (alpha : F) : Run nat :=
  a_ <- get (fun h => floats_of h a) ;;
  new (Bool1 (map (fun pv => f_lt pv alpha) a_)).

(** [a.mean()] *)
Definition mean_of (a : nat) : Run F :=
  a_ <- get (fun h => bools_of h a) ;;
  ret world (mean a_).

Definition power (p : nat) (n : Z) (alpha : F) (p_null : option nat)
    (nsim : nat) : Run F :=
  p_ <- get (fun h => floats_of h p) ;;
  let k := Z.of_nat (length p_) in
  p_null <-
    match p_null with
    | None => one <- ones p ;; divided_by_int one k
    | Some q => ret world q
    end ;;
  x_sim <- rvs n p nsim ;;
  let df := k - 1 in
  statistic_sim <-
    apply_along_axis
      (fun y => sum_of_relative_squared_differences y n p_null) x_sim ;;
  cdf_sim <- cdf statistic_sim df ;;
  pvalue_sim <- one_minus cdf_sim ;;
  below <- less_than pvalue_sim alpha ;;
  mean_of below.

(** The arrays an optional argument holds. *)
Definition optional_floats_of (h : heap) (r : option nat)
    : option (option (list F)) :=
  match r with
  | None => Some None
  | Some q => option_map Some (floats_of h q)
  end.

(** A run from the store [h] and the generator [g] that returns [r] and
    leaves the generator at [g']: every array of [h] is in the store it
    leaves, under its reference and with its contents; what the run has
    made comes after them. *)
Definition runs {A : Type} (m : Run A) (h : heap) (g : G)
    (r : option A) (g' : G) : Prop :=
  exists made : heap, m (h, g) = (r, (h ++ made, g')).

End Objects.

End Store.

Arguments Store.sum_of_relative_squared_differences {F _ G} x n p _.
Arguments Store.power {F _ G} multinomial_rvs chi2_cdf p n alpha p_null nsim _.
Arguments Store.runs {F G A} m h g r g'.

(** ** A generator whose future draws are written on a tape

    The state is the list of the rows the generator will produce; a call
    for [size] rows of [n] draws over [len(p)] categories takes them off
    the front, and raises when the rows there are not such draws. It
    stands for one possible run of numpy's generator. *)

Module Tape.

Definition state : Type := list (list Z).

(** A row the sampler may return for [n] draws over [k] categories. *)
Definition valid_draw (n : Z) (k : nat) (row : list Z) : bool :=
  Nat.eqb (length row) k
  && forallb (fun c => 0 <=? c) row
  && (fold_right Z.add 0 row =? n).

Definition rvs {F : Type} (n : Z) (p : list F) (size : nat) (g : state)
    : option (list (list Z)) * state :=
  let rows := firstn size g in
  if Nat.eqb (length rows) size && forallb (valid_draw n (length p)) rows
  then (Some rows, skipn size g)
  else (None, g).

End Tape.

(** ** What the statements say of the arithmetic and of the CDF *)

Section Arithmetic.
Context {F : Type} `{Float64 F}.

(** The arithmetic counts up to [m] exactly: adding 1.0 or 0.0 to the
    float of an integer below [m] gives the float of the next, or the
    same, integer. True of exact arithmetic for every [m]
    ([ExactCounting.counts]), and of binary64 while [m] stays below
    2^53. *)
Definition counts_exactly (m : nat) : Prop :=
  f_of_int 0 = f_zero
  /\ forall c : Z, 0 <= c < Z.of_nat m ->
       f_add (f_of_int c) f_one = f_of_int (c + 1)
       /\ f_add (f_of_int c) f_zero = f_of_int c.

(** The arithmetic orders the fractions over [m] as their numerators.
    True of exact arithmetic for every [m > 0]
    ([ExactCounting.orders]). *)
Definition fractions_ordered (m : nat) : Prop :=
  forall c1 c2 : nat, (c1 <= m)%nat -> (c2 <= m)%nat ->
    f_lt (fraction c1 m) (fraction c2 m) = Nat.ltb c1 c2.

Definition count_true (flags : list bool) : nat :=
  length (filter (fun b => b) flags).

(** What a statement needs to know of the chi-squared CDF at [df]: a
    statistic below [lo] is not rejected at level [alpha], one above
    [hi] is; the critical value lies in between. At df = 3 and
    alpha = 0.05 the critical value is 7.81. *)
Definition critical_between (cdf : F -> Z -> F) (df : Z)
    (alpha lo hi : F) : Prop :=
  (forall s, f_lt s lo = true -> f_lt (f_sub f_one (cdf s df)) alpha = false)
  /\ (forall s, f_lt hi s = true
                -> f_lt (f_sub f_one (cdf s df)) alpha = true).

(** A stand-in for [sp.stats.chi2.cdf] where a statement needs a CDF it
    can run: 0.0 below [crit] and 1.0 from [crit] on, at every df. *)
Definition step_cdf (crit : F) (s : F) (df : Z) : F :=
  if f_lt s crit then f_zero else f_one.

End Arithmetic.

(** ** The data of the examples *)

(** The notebook's alternative [p_sim = [0.27, 0.23, 0.25, 0.25]]. *)
Definition p_sim : list B64.float :=
  [B64.ratio 27 100; B64.ratio 23 100; B64.ratio 25 100; B64.ratio 25 100].

Definition p_sim_exact : list Qc :=
  [Exact.ratio 27 100; Exact.ratio 23 100; Exact.ratio 25 100;
   Exact.ratio 25 100].

(** A run of the generator that produces the draws [7,1,1,1] and then
    [3,2,3,2] (both of n = 10), and one that produces
    [262,238,251,249] (of n = 1000). *)
Definition two_draws_of_10 : Tape.state := [[7; 1; 1; 1]; [3; 2; 3; 2]].

Definition draw_of_1000 : Tape.state := [[262; 238; 251; 249]].

(** Two CDFs that agree at df = 3 and nowhere else. *)
Definition cdf_zero_off_3 (s : B64.float) (df : Z) : B64.float :=
  if df =? 3 then step_cdf (B64.of_int 8) s df else f_zero.

Definition cdf_one_off_3 (s : B64.float) (df : Z) : B64.float :=
  if df =? 3 then step_cdf (B64.of_int 8) s df else f_one.

(** A store that holds the draw [7,1,1,1], the alternative [p_sim] and
    the uniform null over four categories. *)
Definition store_of_examples : Store.heap :=
  [Store.Int1 [7; 1; 1; 1]; Store.Float1 p_sim;
   Store.Float1 (repeat (B64.ratio 1 4) 4)].

(** 2^-600, a double whose square underflows to 0.0. *)
Definition tiny : B64.float := B64.pow2 (-600).

(** * Properties *)

(** ** Elementwise operations on arrays of one length *)

Section ListFacts.
Context {A B C : Type}.

Lemma broadcast_shape_same (m : nat) : broadcast_shape m m = Some m.
Proof. unfold broadcast_shape. now rewrite Nat.eqb_refl. Qed.

Lemma broadcast_to_same {T : Type} (l : list T) :
  broadcast_to l (length l) = l.
Proof. destruct l as [|a [|b l]]; reflexivity. Qed.

Lemma elementwise_same (f : A -> B -> C) (l : list A) (r : list B) :
  length l = length r -> elementwise f l r = Some (zip_with f l r).
Proof.
  intros E. unfold elementwise.
  rewrite <- E, broadcast_shape_same. cbv beta iota.
  rewrite broadcast_to_same, E, broadcast_to_same. reflexivity.
Qed.

Lemma zip_with_length (f : A -> B -> C) (l : list A) (r : list B) :
  length l = length r -> length (zip_with f l r) = length l.
Proof.
  revert r. induction l as [|a l IH]; intros [|b r] E; simpl in *;
    try discriminate; auto.
Qed.

Lemma zip_with_nth (f : A -> B -> C) (l : list A) (r : list B)
    (da : A) (db : B) (dc : C) (i : nat) :
  length l = length r -> (i < length l)%nat ->
  nth i (zip_with f l r) dc = f (nth i l da) (nth i r db).
Proof.
  revert r i. induction l as [|a l IH]; intros [|b r] i E Hi; simpl in *;
    try discriminate; try lia.
  destruct i as [|i]; [reflexivity|]. apply IH; lia.
Qed.

Lemma map_seq_nth (l : list A) (d : A) :
  map (fun i => nth i l d) (seq 0 (length l)) = l.
Proof.
  apply nth_ext with (d := d) (d' := d).
  - now rewrite length_map, length_seq.
  - intros i Hi. rewrite length_map, length_seq in Hi.
    rewrite nth_indep with (d' := nth 0 l d)
      by now rewrite length_map, length_seq.
    change (nth 0 l d) with ((fun i => nth i l d) 0%nat).
    rewrite map_nth, seq_nth by assumption. reflexivity.
Qed.

End ListFacts.

(** ** The statistic on arrays of one length *)

Section StatisticFacts.
Context {F : Type} `{Float64 F}.

Lemma expect_of_length (n : Z) (p : list F) :
  length (expect_of n p) = length p.
Proof. apply length_map. Qed.

Lemma expect_of_nth (n : Z) (p : list F) (i : nat) :
  (i < length p)%nat -> nth i (expect_of n p) f_zero = expected_at n p i.
Proof.
  intros Hi. unfold expect_of, expected_at.
  rewrite (nth_indep _ f_zero (f_mul f_zero (f_of_int n)))
    by now rewrite length_map.
  apply (map_nth (fun p_i => f_mul p_i (f_of_int n))).
Qed.

Lemma statistic_terms (x : list Z) (n : Z) (p : list F) :
  length x = length p ->
  sum_of_relative_squared_differences x n p = Some (np_sum (terms x n p)).
Proof.
  intros E. unfold sum_of_relative_squared_differences.
  rewrite elementwise_same by now rewrite expect_of_length.
  rewrite elementwise_same; [reflexivity|].
  rewrite length_map, zip_with_length; now rewrite expect_of_length.
Qed.

Lemma terms_length (x : list Z) (n : Z) (p : list F) :
  length x = length p -> length (terms x n p) = length p.
Proof.
  intros E. unfold terms.
  rewrite zip_with_length; rewrite length_map, zip_with_length;
    rewrite ?expect_of_length; auto.
Qed.

Lemma terms_nth (x : list Z) (n : Z) (p : list F) (i : nat) :
  length x = length p -> (i < length p)%nat ->
  nth i (terms x n p) f_zero = term_at x n p i.
Proof.
  intros E Hi. unfold terms, term_at.
  assert (Ed : length (zip_with (fun e x_i => f_sub e (f_of_int x_i))
                         (expect_of n p) x) = length p)
    by (rewrite zip_with_length; rewrite expect_of_length; auto).
  rewrite zip_with_nth with (da := f_square f_zero) (db := f_zero);
    rewrite ?length_map, ?Ed, ?expect_of_length; auto.
  rewrite map_nth, expect_of_nth by assumption.
  rewrite zip_with_nth with (da := f_zero) (db := 0);
    rewrite ?expect_of_length; auto.
  now rewrite expect_of_nth.
Qed.

Lemma terms_spec (x : list Z) (n : Z) (p : list F) :
  length x = length p ->
  terms x n p = map (term_at x n p) (seq 0 (length p)).
Proof.
  intros E.
  rewrite <- (map_seq_nth (terms x n p) f_zero), terms_length by assumption.
  apply map_ext_in. intros i Hi. apply in_seq in Hi.
  apply terms_nth; [assumption | lia].
Qed.

Lemma statistic_spec (x : list Z) (n : Z) (p : list F) :
  length x = length p ->
  sum_of_relative_squared_differences x n p
  = Some (TestStatistic_spec x n p).
Proof.
  intros E. rewrite statistic_terms by assumption.
  unfold TestStatistic_spec. now rewrite terms_spec.
Qed.

End StatisticFacts.

(** C1. For an observed count vector [x], a sample size [n] and a
    probability vector [p] of the same length k, the call
    [sum_of_relative_squared_differences(x, n, p)] returns the sum over
    the categories i of [(expected_i - x_i)^2 / expected_i] with
    [expected_i = p_i * n] (in the arithmetic the code runs in, whichever
    instance of [Float64] that is). *)
Theorem statistic_is_sum_of_relative_squared_differences
    {F : Type} `{Float64 F} (x : list Z) (n : Z) (p : list F) :
  length x = length p ->
  sum_of_relative_squared_differences x n p
  = Some (TestStatistic_spec x n p).
Proof.
  intros E. rewrite statistic_terms by assumption.
  unfold TestStatistic_spec. now rewrite terms_spec.
Qed.

(** The notebook's observation [x_obs = [290, 210, 250, 250]] of
    n = 1000 against [p_sim]. *)
Lemma statistic_is_sum_of_relative_squared_differences_witness :
  length [290; 210; 250; 250] = length p_sim
  /\ sum_of_relative_squared_differences [290; 210; 250; 250] 1000 p_sim
     = Some (TestStatistic_spec [290; 210; 250; 250] 1000 p_sim).
Proof.
  split; [reflexivity|].
  apply statistic_is_sum_of_relative_squared_differences. reflexivity.
Defined.

(** Arrays of different lengths, neither of length 1, do not broadcast:
    the call raises. *)
Example statistic_shape_mismatch_raises :
  sum_of_relative_squared_differences [1; 2; 3] 6
    [B64.ratio 1 2; B64.ratio 1 2] = None.
Proof. reflexivity. Qed.

(** C6. On x = [1,1,0,0], n = 2, p = [0.25,0.25,0.25,0.25] the
    statistic is exactly 2.0, and on x = [2,0,0,0], same n and p, it is
    exactly 6.0: in binary64 (every intermediate value is representable,
    nothing is rounded), and in exact arithmetic. *)
Theorem statistic_concrete_cases :
  sum_of_relative_squared_differences [1; 1; 0; 0] 2
    (repeat (B64.ratio 1 4) 4) = Some (B64.of_int 2)
  /\ sum_of_relative_squared_differences [2; 0; 0; 0] 2
       (repeat (B64.ratio 1 4) 4) = Some (B64.of_int 6)
  /\ sum_of_relative_squared_differences [1; 1; 0; 0] 2
       (repeat (Exact.ratio 1 4) 4) = Some (Exact.of_int 2)
  /\ sum_of_relative_squared_differences [2; 0; 0; 0] 2
       (repeat (Exact.ratio 1 4) 4) = Some (Exact.of_int 6).
Proof.
  repeat split; try (vm_compute; reflexivity);
    rewrite statistic_terms by reflexivity;
    f_equal; apply Qc_is_canon; vm_compute; reflexivity.
Qed.

(** ** Division by zero in binary64 *)

Module B64Facts.
Import B64.

Lemma div_zero_anomalous (a : float) (s : bool) :
  anomalous (SFdiv prec emax a (S754_zero s)) = true.
Proof. destruct a; reflexivity. Qed.

Lemma add_anomalous_l (a b : float) :
  anomalous a = true -> anomalous (SFadd prec emax a b) = true.
Proof.
  destruct a as [sa|sa| |sa ma ea]; try discriminate; intros _;
    destruct b as [sb|sb| |sb mb eb]; try reflexivity;
    destruct sa, sb; reflexivity.
Qed.

Lemma add_anomalous_r (a b : float) :
  anomalous b = true -> anomalous (SFadd prec emax a b) = true.
Proof.
  destruct b as [sb|sb| |sb mb eb]; try discriminate; intros _;
    destruct a as [sa|sa| |sa ma ea]; try reflexivity;
    destruct sa, sb; reflexivity.
Qed.

Lemma fold_add_anomalous_acc (l : list float) (acc : float) :
  anomalous acc = true ->
  anomalous (fold_left (SFadd prec emax) l acc) = true.
Proof.
  revert acc. induction l as [|t l IH]; intros acc Hacc; simpl; auto.
  apply IH. now apply add_anomalous_l.
Qed.

Lemma np_sum_anomalous (l : list float) (t : float) :
  In t l -> anomalous t = true -> anomalous (np_sum l) = true.
Proof.
  unfold np_sum. generalize (f_zero (F := float)).
  induction l as [|u l IH]; intros acc Hin Ht; simpl in *;
    [contradiction|].
  destruct Hin as [E|Hin].
  - subst u. apply fold_add_anomalous_acc. now apply add_anomalous_r.
  - now apply IH.
Qed.

Lemma eq_zero_inv (e : float) :
  f_eq e f_zero = true -> exists s, e = S754_zero s.
Proof.
  destruct e as [s|s| |s m e]; simpl; try discriminate.
  - intros _. now exists s.
  - destruct s; discriminate.
  - destruct s; discriminate.
Qed.

Lemma lt_zero_not_eq_zero (e : float) :
  f_lt f_zero e = true -> f_eq e f_zero = false.
Proof.
  destruct e as [s|s| |s m e]; simpl; try discriminate;
    destruct s; try discriminate; reflexivity.
Qed.

End B64Facts.

Section DivisionFacts.
Context {F : Type} `{Float64 F}.

Lemma zip_with_pair_snd {A B : Type} (l : list A) (r : list B) :
  length l = length r -> map snd (zip_with pair l r) = r.
Proof.
  revert r. induction l as [|a l IH]; intros [|b r] E; simpl in *;
    try discriminate; auto.
  f_equal. apply IH. lia.
Qed.

Lemma zip_with_uncurry {A B C : Type} (f : A -> B -> C)
    (l : list A) (r : list B) :
  zip_with f l r = map (fun d => f (fst d) (snd d)) (zip_with pair l r).
Proof.
  revert r. induction l as [|a l IH]; intros [|b r]; simpl; auto.
  now rewrite IH.
Qed.

(** [divisions] lists exactly the divisions whose quotients the call
    adds up. *)
Lemma divisions_sound (x : list Z) (n : Z) (p : list F) :
  sum_of_relative_squared_differences x n p
  = option_map (fun ds => np_sum (map (fun d => f_div (fst d) (snd d)) ds))
               (divisions x n p).
Proof.
  unfold sum_of_relative_squared_differences, divisions.
  destruct (elementwise _ (expect_of n p) x) as [diff|]; [|reflexivity].
  unfold elementwise.
  destruct (broadcast_shape _ _) as [m|]; [|reflexivity].
  simpl. now rewrite zip_with_uncurry.
Qed.

Lemma divisions_divisors (x : list Z) (n : Z) (p : list F) :
  length x = length p ->
  exists ds, divisions x n p = Some ds /\ map snd ds = expect_of n p.
Proof.
  intros E. unfold divisions.
  rewrite elementwise_same by now rewrite expect_of_length.
  rewrite elementwise_same
    by (rewrite length_map, zip_with_length; now rewrite expect_of_length).
  eexists. split; [reflexivity|].
  apply zip_with_pair_snd.
  rewrite length_map, zip_with_length; now rewrite expect_of_length.
Qed.

Lemma expect_of_In (n : Z) (p : list F) (e : F) :
  In e (expect_of n p) ->
  exists i, (i < length p)%nat /\ e = expected_at n p i.
Proof.
  intros Hin. apply In_nth with (d := f_zero) in Hin.
  destruct Hin as (i & Hi & <-). rewrite expect_of_length in Hi.
  exists i. split; [assumption|]. now apply expect_of_nth.
Qed.

End DivisionFacts.

(** C7. The statistic validates nothing. On arrays of one length the
    call always returns a value, never an exception; when some
    [expected_i = p_i * n] is zero that value is NaN or an infinity (the
    quotient by zero is taken and poisons the sum); and when every
    [expected_i] is strictly positive no division of the call has a zero
    divisor. Stated for binary64. *)
Theorem statistic_division_unguarded
    (x : list Z) (n : Z) (p : list B64.float) :
  length x = length p ->
  (exists v, sum_of_relative_squared_differences x n p = Some v
     /\ ((exists i, (i < length p)%nat
                    /\ f_eq (expected_at n p i) f_zero = true)
         -> B64.anomalous v = true))
  /\ ((forall i, (i < length p)%nat
                 -> f_lt f_zero (expected_at n p i) = true)
      -> exists ds, divisions x n p = Some ds
           /\ Forall (fun d => f_eq (snd d) f_zero = false) ds).
Proof.
  intros E. split.
  - exists (np_sum (terms x n p)). split; [now apply statistic_terms|].
    intros (i & Hi & Hz).
    apply B64Facts.np_sum_anomalous with (t := nth i (terms x n p) f_zero).
    + apply nth_In. now rewrite terms_length.
    + rewrite terms_nth by assumption. unfold term_at.
      destruct (B64Facts.eq_zero_inv _ Hz) as (s & ->).
      apply B64Facts.div_zero_anomalous.
  - intros Hpos. destruct (divisions_divisors x n p E) as (ds & Hds & Hsnd).
    exists ds. split; [assumption|].
    apply Forall_forall. intros d Hd.
    assert (Hin : In (snd d) (expect_of n p))
      by (rewrite <- Hsnd; now apply in_map).
    destruct (expect_of_In _ _ _ Hin) as (i & Hi & ->).
    apply B64Facts.lt_zero_not_eq_zero. now apply Hpos.
Qed.

(** x = [0,1], n = 1, p = [0.0, 1.0]: the first expected count is zero
    and the call returns a NaN or an infinity; x = [1,1], n = 2,
    p = [0.5, 0.5]: both expected counts are 1.0 and no divisor is zero. *)
Lemma statistic_division_unguarded_witness :
  (exists v,
     sum_of_relative_squared_differences [0; 1] 1
       [B64.of_int 0; B64.of_int 1] = Some v
     /\ B64.anomalous v = true)
  /\ (exists ds,
        divisions [1; 1] 2 [B64.ratio 1 2; B64.ratio 1 2] = Some ds
        /\ Forall (fun d => f_eq (snd d) f_zero = false) ds).
Proof.
  split.
  - destruct (proj1 (statistic_division_unguarded
                       [0; 1] 1 [B64.of_int 0; B64.of_int 1] eq_refl))
      as (v & Hv & Ha).
    exists v. split; [exact Hv|].
    apply Ha. exists 0%nat. split; [simpl; lia | reflexivity].
  - apply (proj2 (statistic_division_unguarded
                    [1; 1] 2 [B64.ratio 1 2; B64.ratio 1 2] eq_refl)).
    intros i Hi. destruct i as [|[|i]]; try reflexivity. simpl in Hi. lia.
Defined.

Example statistic_zero_expected_nan :
  sum_of_relative_squared_differences [0; 1] 1 [B64.of_int 0; B64.of_int 1]
  = Some S754_nan.
Proof. vm_compute. reflexivity. Qed.

Example statistic_zero_expected_inf :
  sum_of_relative_squared_differences [1; 1] 2 [B64.of_int 0; B64.of_int 1]
  = Some (S754_infinity false).
Proof. vm_compute. reflexivity. Qed.

(** ** The power estimator *)

Section CountingFacts.
Context {F : Type} `{Float64 F}.

Lemma fold_flags (m : nat) (flags : list bool) (c : nat) :
  counts_exactly m -> (c + length flags <= m)%nat ->
  fold_left f_add (map f_of_bool flags) (f_of_int (Z.of_nat c))
  = f_of_int (Z.of_nat (c + count_true flags)).
Proof.
  intros [_ Hstep]. revert c.
  induction flags as [|b flags IH]; intros c Hc; simpl in *.
  - f_equal. unfold count_true. simpl. lia.
  - destruct (Hstep (Z.of_nat c)) as [Hone Hzero]; [lia|].
    destruct b; unfold count_true; simpl.
    + rewrite Hone.
      replace (Z.of_nat c + 1) with (Z.of_nat (S c)) by lia.
      rewrite IH by lia. f_equal. unfold count_true. lia.
    + rewrite Hzero. rewrite IH by lia. reflexivity.
Qed.

Lemma mean_fraction (flags : list bool) :
  counts_exactly (length flags) ->
  mean flags = fraction (count_true flags) (length flags).
Proof.
  intros Hc. unfold mean, fraction, np_sum.
  destruct Hc as [H0 Hstep]. rewrite <- H0.
  change 0 with (Z.of_nat 0).
  rewrite (fold_flags (length flags)); [reflexivity | now split | lia].
Qed.

Lemma count_true_map {A : Type} (f : A -> bool) (l : list A) :
  count_true (map f l) = length (filter f l).
Proof.
  unfold count_true. induction l as [|a l IH]; simpl; [reflexivity|].
  destruct (f a); simpl; now rewrite IH.
Qed.

End CountingFacts.

Section PowerFacts.
Context {F : Type} `{Float64 F}.

Lemma uniform_null_repeat (p : list F) :
  uniform_null p
  = repeat (f_div f_one (f_of_int (Z.of_nat (length p)))) (length p).
Proof.
  unfold uniform_null, ones_like. rewrite map_map.
  generalize (f_of_int (Z.of_nat (length p))). intros k.
  induction p as [|a p IH]; simpl; [reflexivity | now rewrite IH].
Qed.

Lemma map_rows_statistic (n : Z) (q : list F) (rows : list (list Z)) :
  Forall (fun row => length row = length q) rows ->
  map_rows (fun y => sum_of_relative_squared_differences y n q) rows
  = Some (map (fun y => TestStatistic_spec y n q) rows).
Proof.
  induction 1 as [|row rows Hrow _ IH]; simpl; [reflexivity|].
  rewrite statistic_spec by assumption.
  now rewrite IH.
Qed.

Lemma apply_along_axis_rows {A B : Type} (f : A -> option B)
    (rows : list A) :
  rows <> [] -> apply_along_axis f rows = map_rows f rows.
Proof. destruct rows; [congruence | reflexivity]. Qed.

Lemma map_rows_values {A B : Type} (f : A -> option B) (v : A -> B)
    (rows : list A) :
  Forall (fun row => f row = Some (v row)) rows ->
  map_rows f rows = Some (map v rows).
Proof.
  induction 1 as [|row rows Hrow _ IH]; simpl; [reflexivity|].
  now rewrite Hrow, IH.
Qed.

(** Against a null whose entries are all [u] every term of the statistic
    has the one expected count [u * n]. *)
Lemma terms_constant_null (u : F) (x : list Z) (n : Z) :
  terms x n (repeat u (length x))
  = map (fun x_i =>
           f_div (f_square (f_sub (f_mul u (f_of_int n)) (f_of_int x_i)))
                 (f_mul u (f_of_int n))) x.
Proof.
  unfold terms, expect_of.
  induction x as [|x_i x IH]; simpl; [reflexivity|].
  now rewrite IH.
Qed.

Lemma statistic_constant_null (u : F) (x : list Z) (n : Z) (k : nat) :
  length x = k ->
  sum_of_relative_squared_differences x n (repeat u k)
  = Some (np_sum
            (map (fun x_i =>
                    f_div (f_square (f_sub (f_mul u (f_of_int n))
                                           (f_of_int x_i)))
                          (f_mul u (f_of_int n))) x)).
Proof.
  intros <-. rewrite statistic_terms by now rewrite repeat_length.
  now rewrite terms_constant_null.
Qed.

End PowerFacts.

(** ** Running [power] on the draws the sampler returns *)

Section PowerRuns.
Context {F : Type} `{Float64 F}.
Variable G : Type.
Variable multinomial_rvs :
  Z -> list F -> nat -> G -> option (list (list Z)) * G.
Variable chi2_cdf : F -> Z -> F.

(** The call, once the sampler has returned [rows] and the statistic of
    every row has come out as [stats]. *)
Lemma power_rows (p : list F) (n : Z) (alpha : F)
    (p_null : option (list F)) (nsim : nat) (g g' : G)
    (rows : list (list Z)) (stats : list F) (df : Z) :
  multinomial_rvs n p nsim g = (Some rows, g') ->
  apply_along_axis
    (fun y => sum_of_relative_squared_differences y n (null_of p p_null))
    rows = Some stats ->
  df = Z.of_nat (length p) - 1 ->
  power multinomial_rvs chi2_cdf p n alpha p_null nsim g
  = (Some (mean (map (fun s => f_lt (f_sub f_one (chi2_cdf s df)) alpha)
                     stats)), g').
Proof.
  intros Hrvs Hstats ->. unfold power, bind, lift, ret.
  rewrite Hrvs. fold (null_of p p_null). rewrite Hstats.
  now rewrite map_map.
Qed.

(** The generator is left as the sampler leaves it. *)
Lemma power_state (p : list F) (n : Z) (alpha : F)
    (p_null : option (list F)) (nsim : nat) (g : G) :
  snd (power multinomial_rvs chi2_cdf p n alpha p_null nsim g)
  = snd (multinomial_rvs n p nsim g).
Proof.
  unfold power, bind, lift, ret.
  destruct (multinomial_rvs n p nsim g) as [[x_sim|] g']; [|reflexivity].
  now destruct (apply_along_axis _ x_sim).
Qed.

End PowerRuns.

(** The call returns the number of rejected draws over [nsim]. *)
Lemma power_fraction
    {F : Type} `{Float64 F} (G : Type)
    (multinomial_rvs : Z -> list F -> nat -> G -> option (list (list Z)) * G)
    (chi2_cdf : F -> Z -> F)
    (p : list F) (n : Z) (alpha : F) (p_null : option (list F))
    (nsim : nat) (g g' : G) (draws : list (list Z)) :
  let k := length p in
  multinomial_rvs n p nsim g = (Some draws, g') ->
  length draws = nsim ->
  (0 < nsim)%nat ->
  Forall (fun draw => length draw = k) draws ->
  length (null_of p p_null) = k ->
  counts_exactly nsim ->
  power multinomial_rvs chi2_cdf p n alpha p_null nsim g
  = (Some (fraction
             (rejected chi2_cdf (null_of p p_null) n k alpha draws) nsim),
     g').
Proof.
  intros k Hrvs Hlen Hpos Hrows Hnull Hcount.
  rewrite (power_rows G multinomial_rvs chi2_cdf p n alpha p_null nsim g g'
             draws
             (map (fun y => TestStatistic_spec y n (null_of p p_null)) draws)
             (Z.of_nat k - 1) Hrvs); [| |reflexivity].
  - rewrite map_map, mean_fraction;
      rewrite length_map, ?Hlen; [|assumption].
    now rewrite count_true_map.
  - rewrite apply_along_axis_rows
      by (intros ->; simpl in Hlen; lia).
    apply map_rows_statistic.
    eapply Forall_impl; [|exact Hrows]. intros row Hr. simpl in Hr. congruence.
Qed.

Lemma rejected_le {F : Type} `{Float64 F} (cdf : F -> Z -> F)
    (q : list F) (n : Z) (k : nat) (alpha : F) (draws : list (list Z)) :
  (rejected cdf q n k alpha draws <= length draws)%nat.
Proof. unfold rejected. apply filter_length_le. Qed.

(** ** The stand-in CDF and the runs of the tape generator *)

Lemma binary64_counts_to_2 : counts_exactly (F := B64.float) 2.
Proof.
  split; [reflexivity|]. intros c Hc.
  assert (E : c = 0 \/ c = 1) by lia.
  destruct E as [-> | ->]; split; vm_compute; reflexivity.
Defined.

Lemma binary64_counts_to_1 : counts_exactly (F := B64.float) 1.
Proof.
  split; [reflexivity|]. intros c Hc.
  assert (E : c = 0) by lia. subst c. split; vm_compute; reflexivity.
Defined.

Lemma binary64_orders_fractions_over_1 :
  fractions_ordered (F := B64.float) 1.
Proof.
  intros c1 c2 H1 H2.
  assert (E1 : c1 = 0%nat \/ c1 = 1%nat) by lia.
  assert (E2 : c2 = 0%nat \/ c2 = 1%nat) by lia.
  destruct E1 as [-> | ->], E2 as [-> | ->]; vm_compute; reflexivity.
Defined.

Lemma compare_cont_lt (a b : positive) :
  Pos.compare_cont Eq a b = Lt -> (a < b)%positive.
Proof.
  rewrite Pos.compare_cont_spec.
  destruct (Pos.compare_spec a b) as [E|L|G]; simpl; intros K;
    try discriminate K. exact L.
Qed.

Lemma lt_7_lt_8 (s : B64.float) :
  SFltb s (B64.of_int 7) = true -> SFltb s (B64.of_int 8) = true.
Proof.
  assert (E7 : B64.of_int 7 = S754_finite false 7881299347898368 (-50))
    by (vm_compute; reflexivity).
  assert (E8 : B64.of_int 8 = S754_finite false 4503599627370496 (-49))
    by (vm_compute; reflexivity).
  rewrite E7, E8. clear E7 E8.
  unfold SFltb, SFcompare.
  destruct s as [[|]|[|]| |[|] m e]; try discriminate; try reflexivity.
  destruct (Z.compare_spec e (-50)) as [E| Hlt | Hgt].
  - subst e. intros _. reflexivity.
  - intros _. destruct (Z.compare_spec e (-49)) as [E| Hlt' | Hgt'];
      [exfalso; lia | reflexivity | exfalso; lia].
  - discriminate.
Qed.

Lemma lt_10_not_lt_8 (s : B64.float) :
  SFltb (B64.of_int 10) s = true -> SFltb s (B64.of_int 8) = false.
Proof.
  assert (E10 : B64.of_int 10 = S754_finite false 5629499534213120 (-49))
    by (vm_compute; reflexivity).
  assert (E8 : B64.of_int 8 = S754_finite false 4503599627370496 (-49))
    by (vm_compute; reflexivity).
  rewrite E10, E8. clear E10 E8.
  unfold SFltb, SFcompare.
  destruct s as [[|]|[|]| |[|] m e]; try discriminate; try reflexivity.
  destruct (Z.compare_spec (-49) e) as [E | Hlt | Hgt].
  - subst e. change (-49 ?= -49) with Eq. cbv iota.
    destruct (Pos.compare_cont Eq 5629499534213120 m) eqn:Em;
      try discriminate.
    intros _.
    destruct (Pos.compare_cont Eq m 4503599627370496) eqn:Em';
      try reflexivity.
    apply compare_cont_lt in Em, Em'.
    pose proof (Pos.lt_trans _ _ _ Em Em') as K.
    vm_compute in K. discriminate K.
  - intros _. destruct (Z.compare_spec e (-49)) as [E| Hlt' | Hgt'];
      [exfalso; lia | exfalso; lia | reflexivity].
  - discriminate.
Qed.

(** The stand-in with its step at 8 is such a CDF. *)
Lemma step_cdf_critical :
  critical_between (step_cdf (B64.of_int 8)) 3 alpha_default
    (B64.of_int 7) (B64.of_int 10).
Proof.
  split; intros s Hs; unfold step_cdf;
    change (f_lt s (B64.of_int 8)) with (SFltb s (B64.of_int 8)).
  - rewrite (lt_7_lt_8 s Hs). vm_compute. reflexivity.
  - rewrite (lt_10_not_lt_8 s Hs). vm_compute. reflexivity.
Qed.

Section TapeRuns.
Variable cdf : B64.float -> Z -> B64.float.

(** One draw from the front of the tape: the estimate is the mean of
    the one flag "p-value below alpha". *)
Lemma one_draw (n : Z) (draw : list Z) (g : Tape.state) (flag : bool) :
  Tape.valid_draw n 4 draw = true ->
  f_lt (f_sub f_one
          (cdf (TestStatistic_spec draw n (uniform_null p_sim)) 3))
       alpha_default = flag ->
  power Tape.rvs cdf p_sim n alpha_default None 1 (draw :: g)
  = (Some (mean [flag]), g).
Proof.
  intros Hv Hflag.
  rewrite (power_rows Tape.state Tape.rvs cdf p_sim n alpha_default None 1
             (draw :: g) g [draw]
             [TestStatistic_spec draw n (uniform_null p_sim)] 3).
  - cbn [map]. now rewrite Hflag.
  - unfold Tape.rvs. cbn [firstn length forallb skipn Nat.eqb andb].
    change (length p_sim) with 4%nat. now rewrite Hv.
  - cbn [apply_along_axis map_rows null_of].
    rewrite statistic_spec; [reflexivity|].
    apply andb_prop in Hv. destruct Hv as [Hv _].
    apply andb_prop in Hv. destruct Hv as [Hv _].
    apply Nat.eqb_eq in Hv. rewrite Hv. reflexivity.
  - reflexivity.
Qed.

Hypothesis Hcdf :
  critical_between cdf 3 alpha_default (B64.of_int 7) (B64.of_int 10).

(** A draw whose statistic against the uniform null is above 10 is
    rejected: the estimate is 1.0. *)
Lemma one_draw_rejected (n : Z) (draw : list Z) (g : Tape.state) :
  Tape.valid_draw n 4 draw = true ->
  f_lt (B64.of_int 10) (TestStatistic_spec draw n (uniform_null p_sim))
  = true ->
  power Tape.rvs cdf p_sim n alpha_default None 1 (draw :: g)
  = (Some (B64.of_int 1), g).
Proof.
  intros Hv Hs.
  rewrite (one_draw n draw g true Hv (proj2 Hcdf _ Hs)).
  vm_compute. reflexivity.
Qed.

(** A draw whose statistic is below 7 is kept: the estimate is 0.0. *)
Lemma one_draw_kept (n : Z) (draw : list Z) (g : Tape.state) :
  Tape.valid_draw n 4 draw = true ->
  f_lt (TestStatistic_spec draw n (uniform_null p_sim)) (B64.of_int 7)
  = true ->
  power Tape.rvs cdf p_sim n alpha_default None 1 (draw :: g)
  = (Some (B64.of_int 0), g).
Proof.
  intros Hv Hs.
  rewrite (one_draw n draw g false Hv (proj1 Hcdf _ Hs)).
  vm_compute. reflexivity.
Qed.

End TapeRuns.

(** ** The claims about [power] *)

(** C2. [power] asks the sampler once for [nsim] draws from
    multinomial(n, p), takes the statistic of every draw against
    [p_null], turns each into the p-value
    [1 - chi2_cdf(statistic, k - 1)] with k = len(p), and returns the
    fraction of the [nsim] p-values strictly below [alpha]: the number
    of such draws over [nsim]. The draws are what the sampler returned,
    [nsim] rows of k counts against a null of k entries, and the
    arithmetic counts up to [nsim] exactly. *)
Theorem power_is_rejected_fraction
    {F : Type} `{Float64 F} (G : Type)
    (multinomial_rvs : Z -> list F -> nat -> G -> option (list (list Z)) * G)
    (chi2_cdf : F -> Z -> F)
    (p : list F) (n : Z) (alpha : F) (p_null : option (list F))
    (nsim : nat) (g g' : G) (draws : list (list Z)) :
  let k := length p in
  multinomial_rvs n p nsim g = (Some draws, g') ->
  length draws = nsim ->
  (0 < nsim)%nat ->
  Forall (fun draw => length draw = k) draws ->
  length (null_of p p_null) = k ->
  counts_exactly nsim ->
  power multinomial_rvs chi2_cdf p n alpha p_null nsim g
  = (Some (fraction
             (rejected chi2_cdf (null_of p p_null) n k alpha draws) nsim),
     g').
Proof.
  intros k Hrvs Hlen Hpos Hrows Hnull Hcount.
  now apply power_fraction.
Qed.

Lemma power_is_rejected_fraction_witness :
  power Tape.rvs (step_cdf (B64.of_int 8)) p_sim 10 alpha_default None 2
    two_draws_of_10
  = (Some (fraction
             (rejected (step_cdf (B64.of_int 8)) (null_of p_sim None) 10 4
                alpha_default two_draws_of_10) 2), [])
  /\ fraction (F := B64.float)
       (rejected (step_cdf (B64.of_int 8)) (null_of p_sim None) 10 4
          alpha_default two_draws_of_10) 2
     = B64.ratio 1 2.
Proof.
  split; [|vm_compute; reflexivity].
  apply (power_is_rejected_fraction Tape.state Tape.rvs
           (step_cdf (B64.of_int 8)) p_sim 10 alpha_default None 2
           two_draws_of_10 [] two_draws_of_10).
  - reflexivity.
  - reflexivity.
  - lia.
  - repeat constructor.
  - reflexivity.
  - exact binary64_counts_to_2.
Defined.

(** C3. When [p_null] is absent ([None]), [power] uses the uniform
    distribution over k = len(p) categories as the null: the vector it
    makes up has k entries, each 1/k, and that vector is what the
    statistic of every draw is taken against, so that every expected
    count is (1/k) * n. The call returns the share of the draws whose
    p-value, from that statistic, is below [alpha], and it is the call
    with the vector of k entries 1/k supplied as [p_null]. The draws are
    what the sampler returned, at least one row, each of k counts. *)
Theorem power_absent_null_is_uniform
    {F : Type} `{Float64 F} (G : Type)
    (multinomial_rvs : Z -> list F -> nat -> G -> option (list (list Z)) * G)
    (chi2_cdf : F -> Z -> F)
    (p : list F) (n : Z) (alpha : F) (nsim : nat) (g g' : G)
    (draws : list (list Z)) :
  let k := length p in
  let u := f_div f_one (f_of_int (Z.of_nat k)) in
  let expected := f_mul u (f_of_int n) in
  let statistic (draw : list Z) :=
    np_sum (map (fun x_i =>
                   f_div (f_square (f_sub expected (f_of_int x_i))) expected)
                draw) in
  multinomial_rvs n p nsim g = (Some draws, g') ->
  draws <> [] ->
  Forall (fun draw => length draw = k) draws ->
  uniform_null p = repeat u k
  /\ power multinomial_rvs chi2_cdf p n alpha None nsim g
     = (Some (mean (map (fun draw =>
                           f_lt (f_sub f_one
                                   (chi2_cdf (statistic draw)
                                             (Z.of_nat k - 1)))
                                alpha)
                        draws)), g')
  /\ power multinomial_rvs chi2_cdf p n alpha None nsim g
     = power multinomial_rvs chi2_cdf p n alpha (Some (repeat u k)) nsim g.
Proof.
  intros k u expected statistic Hrvs Hne Hrows.
  split; [apply uniform_null_repeat|]. split.
  - rewrite (power_rows G multinomial_rvs chi2_cdf p n alpha None nsim g g'
               draws (map statistic draws) (Z.of_nat k - 1) Hrvs);
      [now rewrite map_map | | reflexivity].
    rewrite apply_along_axis_rows by assumption.
    apply map_rows_values.
    eapply Forall_impl; [|exact Hrows]. intros draw Hd. simpl in Hd.
    cbn [null_of]. rewrite uniform_null_repeat.
    now apply statistic_constant_null.
  - unfold power. now rewrite uniform_null_repeat.
Qed.

(** Two draws of n = 10 over four categories: the null is
    [0.25, 0.25, 0.25, 0.25], every expected count 2.5; the statistics
    are 10.8 and 0.4, and one draw of the two is rejected. *)
Lemma power_absent_null_is_uniform_witness :
  uniform_null p_sim = repeat (B64.ratio 1 4) 4
  /\ power Tape.rvs (step_cdf (B64.of_int 8)) p_sim 10 alpha_default None 2
       two_draws_of_10
     = (Some (B64.ratio 1 2), []).
Proof.
  destruct (power_absent_null_is_uniform Tape.state Tape.rvs
              (step_cdf (B64.of_int 8)) p_sim 10 alpha_default 2
              two_draws_of_10 [] two_draws_of_10)
    as (E1 & E2 & _).
  - vm_compute. reflexivity.
  - discriminate.
  - repeat constructor.
  - split.
    + rewrite E1. vm_compute. reflexivity.
    + rewrite E2. vm_compute. reflexivity.
Defined.

(** For four categories the default null is [0.25, 0.25, 0.25, 0.25]. *)
Example uniform_null_four : uniform_null p_sim = repeat (B64.ratio 1 4) 4.
Proof. vm_compute. reflexivity. Qed.

(** C10. [power] takes the degrees of freedom of the chi-squared CDF
    from the true distribution: df = len(p) - 1. The p-value of every
    draw is 1 - chi2_cdf(statistic, len(p) - 1), whatever [p_null] is
    supplied, of whatever length, and the call consults the CDF at no
    other df: a CDF that agrees with [chi2_cdf] at df = len(p) - 1 gives
    the same result. *)
Theorem power_df_from_true_distribution
    {F : Type} `{Float64 F} (G : Type)
    (multinomial_rvs : Z -> list F -> nat -> G -> option (list (list Z)) * G)
    (chi2_cdf : F -> Z -> F)
    (p : list F) (n : Z) (alpha : F) (p_null : option (list F))
    (nsim : nat) (g g' : G) (draws : list (list Z)) (statistics : list F) :
  let df := Z.of_nat (length p) - 1 in
  multinomial_rvs n p nsim g = (Some draws, g') ->
  apply_along_axis
    (fun y => sum_of_relative_squared_differences y n (null_of p p_null))
    draws = Some statistics ->
  power multinomial_rvs chi2_cdf p n alpha p_null nsim g
  = (Some (mean (map (fun s => f_lt (f_sub f_one (chi2_cdf s df)) alpha)
                     statistics)), g')
  /\ forall cdf2 : F -> Z -> F,
       (forall s, cdf2 s df = chi2_cdf s df) ->
       power multinomial_rvs cdf2 p n alpha p_null nsim g
       = power multinomial_rvs chi2_cdf p n alpha p_null nsim g.
Proof.
  intros df Hrvs Hstats. split.
  - now apply (power_rows G multinomial_rvs chi2_cdf p n alpha p_null nsim
                 g g' draws statistics df).
  - intros cdf2 Hagree.
    rewrite (power_rows G multinomial_rvs cdf2 p n alpha p_null nsim
               g g' draws statistics df Hrvs Hstats eq_refl).
    rewrite (power_rows G multinomial_rvs chi2_cdf p n alpha p_null nsim
               g g' draws statistics df Hrvs Hstats eq_refl).
    do 3 f_equal. apply map_ext. intros s. now rewrite Hagree.
Qed.

(** Four categories against a null of one entry, which numpy stretches
    over them: the statistics 10.8 and 0.4 of the two draws are looked
    up at df = 3, not at df = 0, and a CDF that differs from the first
    away from df = 3 gives the same estimate, one draw of two. *)
Lemma power_df_from_true_distribution_witness :
  power Tape.rvs cdf_zero_off_3 p_sim 10 alpha_default
    (Some [B64.ratio 1 4]) 2 two_draws_of_10
  = (Some (mean (map (fun s =>
                        f_lt (f_sub f_one (cdf_zero_off_3 s 3)) alpha_default)
                     [B64.ratio 108 10; B64.ratio 4 10])), [])
  /\ cdf_one_off_3 (B64.ratio 108 10) 0 <> cdf_zero_off_3 (B64.ratio 108 10) 0
  /\ power Tape.rvs cdf_one_off_3 p_sim 10 alpha_default
       (Some [B64.ratio 1 4]) 2 two_draws_of_10
     = power Tape.rvs cdf_zero_off_3 p_sim 10 alpha_default
         (Some [B64.ratio 1 4]) 2 two_draws_of_10
  /\ mean (map (fun s =>
                  f_lt (f_sub f_one (cdf_zero_off_3 s 3)) alpha_default)
               [B64.ratio 108 10; B64.ratio 4 10])
     = B64.ratio 1 2.
Proof.
  destruct (power_df_from_true_distribution Tape.state Tape.rvs
              cdf_zero_off_3 p_sim 10 alpha_default (Some [B64.ratio 1 4]) 2
              two_draws_of_10 [] two_draws_of_10
              [B64.ratio 108 10; B64.ratio 4 10])
    as (E1 & E2).
  - vm_compute. reflexivity.
  - vm_compute. reflexivity.
  - split; [exact E1|]. split; [discriminate|]. split.
    + apply E2. intros s. reflexivity.
    + vm_compute. reflexivity.
Defined.

Example power_stretched_null_runs :
  power Tape.rvs cdf_zero_off_3 p_sim 10 alpha_default
    (Some [B64.ratio 1 4]) 2 two_draws_of_10
  = (Some (B64.ratio 1 2), []).
Proof. vm_compute. reflexivity. Qed.

(** The CDF at df = 3 is consulted: one that is 0.0 there gives another
    result on the same draws. *)
Example power_consults_cdf_at_3 :
  power Tape.rvs (fun _ _ => B64.of_int 0) p_sim 10 alpha_default
    (Some [B64.ratio 1 4]) 2 two_draws_of_10
  = (Some (B64.of_int 0), []).
Proof. vm_compute. reflexivity. Qed.

(** ** The two functions on the store *)

Section StoreFacts.
Context {F : Type} `{Float64 F}.
Variable G : Type.
Variable multinomial_rvs :
  Z -> list F -> nat -> G -> option (list (list Z)) * G.
Variable chi2_cdf : F -> Z -> F.

Lemma bind_some {S A B : Type} (m : M S A) (f : A -> M S B) (w w' : S)
    (a : A) :
  m w = (Some a, w') -> bind S m f w = f a w'.
Proof. intros E. unfold bind. now rewrite E. Qed.

Lemma bind_none {S A B : Type} (m : M S A) (f : A -> M S B) (w w' : S) :
  m w = (None, w') -> bind S m f w = (None, w').
Proof. intros E. unfold bind. now rewrite E. Qed.

Lemma nth_error_grows {A : Type} (h made : list A) (r : nat) (a : A) :
  nth_error h r = Some a -> nth_error (h ++ made) r = Some a.
Proof.
  intros E. rewrite nth_error_app1; [assumption|].
  apply nth_error_Some. congruence.
Qed.

Lemma nth_error_last {A : Type} (h : list A) (a : A) :
  nth_error (h ++ [a]) (length h) = Some a.
Proof. rewrite nth_error_app2, Nat.sub_diag; [reflexivity | lia]. Qed.

Lemma floats_of_grows (h made : Store.heap) (r : nat) (a : list F) :
  Store.floats_of h r = Some a -> Store.floats_of (h ++ made) r = Some a.
Proof.
  unfold Store.floats_of.
  destruct (nth_error h r) as [o|] eqn:E; [|discriminate].
  now rewrite (nth_error_grows h made r o E).
Qed.

Lemma rows_of_grows (h made : Store.heap) (r : nat) (a : list (list Z)) :
  Store.rows_of (F := F) h r = Some a -> Store.rows_of (h ++ made) r = Some a.
Proof.
  unfold Store.rows_of.
  destruct (nth_error h r) as [o|] eqn:E; [|discriminate].
  now rewrite (nth_error_grows h made r o E).
Qed.

Lemma ints_of_grows (h made : Store.heap) (x : Store.view) (a : list Z) :
  Store.ints_of (F := F) h x = Some a -> Store.ints_of (h ++ made) x = Some a.
Proof.
  destruct x as [r | r i]; unfold Store.ints_of.
  - destruct (nth_error h r) as [o|] eqn:E; [|discriminate].
    now rewrite (nth_error_grows h made r o E).
  - destruct (Store.rows_of h r) as [rows|] eqn:E; [|discriminate].
    now rewrite (rows_of_grows h made r rows E).
Qed.

Lemma floats_of_last (h : Store.heap) (a : list F) :
  Store.floats_of (h ++ [Store.Float1 a]) (length h) = Some a.
Proof. unfold Store.floats_of. now rewrite nth_error_last. Qed.

Lemma bools_of_last (h : Store.heap) (a : list bool) :
  Store.bools_of (F := F) (h ++ [Store.Bool1 a]) (length h) = Some a.
Proof. unfold Store.bools_of. now rewrite nth_error_last. Qed.

Lemma rows_of_last (h : Store.heap) (a : list (list Z)) :
  Store.rows_of (F := F) (h ++ [Store.Int2 a]) (length h) = Some a.
Proof. unfold Store.rows_of. now rewrite nth_error_last. Qed.

(** An operation that reads one float64 array and makes a new array. *)
Lemma read_and_make (h : Store.heap) (g : G) (a : nat) (a_ : list F)
    (made : list F -> Store.array) :
  Store.floats_of h a = Some a_ ->
  bind (Store.world G) (Store.get G (fun h => Store.floats_of h a))
       (fun a_ => Store.new G (made a_)) (h, g)
  = (Some (length h), (h ++ [made a_], g)).
Proof.
  intros E. unfold bind, Store.get, Store.new. simpl. now rewrite E.
Qed.

(** [expect - x] *)
Lemma minus_ints_run (h : Store.heap) (g : G) (e : nat) (x : Store.view)
    (e_ : list F) (x_ : list Z) :
  Store.floats_of h e = Some e_ ->
  Store.ints_of h x = Some x_ ->
  Store.minus_ints G e x (h, g)
  = match elementwise (fun e x_i => f_sub e (f_of_int x_i)) e_ x_ with
    | Some d_ => (Some (length h), (h ++ [Store.Float1 d_], g))
    | None => (None, (h, g))
    end.
Proof.
  intros Ee Ex. unfold Store.minus_ints, bind, Store.get, Store.new, lift.
  simpl. rewrite Ee, Ex.
  now destruct (elementwise _ e_ x_).
Qed.

(** [a / b] *)
Lemma divided_by_run (h : Store.heap) (g : G) (a b : nat) (a_ b_ : list F) :
  Store.floats_of h a = Some a_ ->
  Store.floats_of h b = Some b_ ->
  Store.divided_by G a b (h, g)
  = match elementwise f_div a_ b_ with
    | Some q_ => (Some (length h), (h ++ [Store.Float1 q_], g))
    | None => (None, (h, g))
    end.
Proof.
  intros Ea Eb. unfold Store.divided_by, bind, Store.get, Store.new, lift.
  simpl. rewrite Ea, Eb.
  now destruct (elementwise f_div a_ b_).
Qed.

(** A call of the statistic on the store returns what the function of
    the arrays' contents returns, in every store and generator state;
    it leaves the generator alone and every array of the store as it
    was. *)
Lemma statistic_runs (h : Store.heap) (g : G) (x : Store.view) (n : Z)
    (p : nat) (x_ : list Z) (p_ : list F) :
  Store.ints_of h x = Some x_ ->
  Store.floats_of h p = Some p_ ->
  Store.runs (Store.sum_of_relative_squared_differences x n p) h g
             (sum_of_relative_squared_differences x_ n p_) g.
Proof.
  intros Hx Hp.
  unfold Store.runs, Store.sum_of_relative_squared_differences,
    sum_of_relative_squared_differences.
  unfold Store.times_int.
  rewrite (bind_some _ _ _ _ _ (read_and_make h g p p_ _ Hp)).
  set (h1 := h ++ [Store.Float1 (expect_of n p_)]).
  assert (He : Store.floats_of h1 (length h) = Some (expect_of n p_))
    by apply floats_of_last.
  pose proof (minus_ints_run h1 g (length h) x _ _ He
                (ints_of_grows h _ x x_ Hx)) as Em.
  destruct (elementwise (fun e x_i => f_sub e (f_of_int x_i))
                        (expect_of n p_) x_) as [d_|].
  2:{ rewrite (bind_none _ _ _ _ Em). now eexists. }
  rewrite (bind_some _ _ _ _ _ Em). unfold Store.squared.
  rewrite (bind_some _ _ _ _ _
             (read_and_make _ g (length h1) d_
                (fun a_ => Store.Float1 (map f_square a_))
                (floats_of_last h1 d_))).
  set (h2 := h1 ++ [Store.Float1 d_]).
  set (h3 := h2 ++ [Store.Float1 (map f_square d_)]).
  pose proof (divided_by_run h3 g (length h2) (length h) _ _
                (floats_of_last h2 _)
                (floats_of_grows _ _ _ _ (floats_of_grows _ _ _ _ He)))
    as Ed.
  destruct (elementwise f_div (map f_square d_) (expect_of n p_)) as [q_|].
  2:{ rewrite (bind_none _ _ _ _ Ed). subst h3 h2 h1.
      eexists. rewrite <- !app_assoc. reflexivity. }
  rewrite (bind_some _ _ _ _ _ Ed).
  unfold Store.sum, bind, Store.get, ret. simpl.
  rewrite floats_of_last. subst h3 h2 h1.
  eexists. rewrite <- !app_assoc. reflexivity.
Qed.

Lemma each_row_runs (n : Z) (q : nat) (q_ : list F) (arr : nat)
    (rows : list (list Z)) (idx : list nat) :
  Forall (fun i => (i < length rows)%nat) idx ->
  forall (h : Store.heap) (g : G),
    Store.rows_of h arr = Some rows ->
    Store.floats_of h q = Some q_ ->
    Store.runs
      (Store.each_row G
         (fun y => Store.sum_of_relative_squared_differences y n q) arr idx)
      h g
      (map_rows (fun y => sum_of_relative_squared_differences y n q_)
                (map (fun i => nth i rows []) idx))
      g.
Proof.
  induction 1 as [|i idx Hi _ IH]; intros h g Hrows Hq.
  - exists []. simpl. unfold ret. now rewrite app_nil_r.
  - assert (Hx : Store.ints_of h (Store.Row arr i) = Some (nth i rows [])).
    { unfold Store.ints_of. rewrite Hrows. now apply nth_error_nth'. }
    destruct (statistic_runs h g _ n q _ _ Hx Hq) as [made1 E1].
    cbn [Store.each_row map map_rows]. unfold Store.runs.
    destruct (sum_of_relative_squared_differences (nth i rows []) n q_)
      as [v|].
    2:{ exists made1. now rewrite (bind_none _ _ _ _ E1). }
    rewrite (bind_some _ _ _ _ _ E1).
    destruct (IH (h ++ made1) g (rows_of_grows _ _ _ _ Hrows)
                (floats_of_grows _ _ _ _ Hq)) as [made2 E2].
    destruct (map_rows _ (map (fun i => nth i rows []) idx)) as [vs|].
    + rewrite (bind_some _ _ _ _ _ E2). unfold bind, ret.
      exists (made1 ++ made2). now rewrite app_assoc.
    + rewrite (bind_none _ _ _ _ E2).
      exists (made1 ++ made2). now rewrite app_assoc.
Qed.

(** The null the body works with, once it stands in the store. *)
Lemma null_in_store (h : Store.heap) (g : G) (p : nat) (p_ : list F)
    (p_null : option nat) (q : option (list F)) :
  Store.floats_of h p = Some p_ ->
  Store.optional_floats_of h p_null = Some q ->
  exists (made : Store.heap) (r : nat),
    match p_null with
    | None =>
        bind (Store.world G) (Store.ones G p)
          (fun one => Store.divided_by_int G one (Z.of_nat (length p_)))
    | Some q => ret (Store.world G) q
    end (h, g) = (Some r, (h ++ made, g))
    /\ Store.floats_of (h ++ made) r = Some (null_of p_ q).
Proof.
  intros Hp Hq. destruct p_null as [r|]; simpl in Hq.
  - exists [], r. unfold ret. rewrite app_nil_r.
    destruct (Store.floats_of h r) as [q_|] eqn:E; [|discriminate].
    injection Hq as <-. now split.
  - injection Hq as <-. unfold Store.ones.
    eexists. eexists. split.
    + rewrite (bind_some _ _ _ _ _
                 (read_and_make h g p p_
                    (fun a_ => Store.Float1 (ones_like a_)) Hp)).
      unfold Store.divided_by_int.
      rewrite (read_and_make _ g (length h) (ones_like p_)
                 (fun a_ => Store.Float1
                    (map (fun one => f_div one
                                       (f_of_int (Z.of_nat (length p_))))
                         a_))
                 (floats_of_last h _)).
      rewrite <- app_assoc. reflexivity.
    + rewrite app_assoc. rewrite length_app. simpl length.
      rewrite Nat.add_1_r.
      replace (S (length h))
        with (length (h ++ [Store.Float1 (ones_like p_)]))
        by (rewrite length_app; simpl; lia).
      apply floats_of_last.
Qed.

Lemma get_run {A : Type} (read : Store.heap -> option A) (h : Store.heap)
    (g : G) (a : A) :
  read h = Some a -> Store.get (F := F) G read (h, g) = (Some a, (h, g)).
Proof. intros E. unfold Store.get. simpl. now rewrite E. Qed.

Lemma rvs_run (h : Store.heap) (g : G) (n : Z) (p : nat) (size : nat)
    (p_ : list F) :
  Store.floats_of h p = Some p_ ->
  Store.rvs G multinomial_rvs n p size (h, g)
  = match multinomial_rvs n p_ size g with
    | (Some rows, g') => (Some (length h), (h ++ [Store.Int2 rows], g'))
    | (None, g') => (None, (h, g'))
    end.
Proof.
  intros E. unfold Store.rvs, bind, Store.get, Store.new. simpl.
  rewrite E. now destruct (multinomial_rvs n p_ size g) as [[rows|] g'].
Qed.

Lemma apply_along_axis_runs (h : Store.heap) (g : G) (n : Z) (q : nat)
    (q_ : list F) (arr : nat) (rows : list (list Z)) :
  Store.rows_of h arr = Some rows ->
  Store.floats_of h q = Some q_ ->
  exists made : Store.heap,
    Store.apply_along_axis G
      (fun y => Store.sum_of_relative_squared_differences y n q) arr (h, g)
    = match apply_along_axis
              (fun y => sum_of_relative_squared_differences y n q_) rows with
      | Some vs =>
          (Some (length (h ++ made)), ((h ++ made) ++ [Store.Float1 vs], g))
      | None => (None, (h ++ made, g))
      end.
Proof.
  intros Hrows Hq. unfold Store.apply_along_axis.
  rewrite (bind_some _ _ _ _ _
             (get_run (fun h => Store.rows_of h arr) h g rows Hrows)).
  destruct rows as [|row rows'].
  - exists []. now rewrite app_nil_r.
  - set (rows := row :: rows') in *.
    assert (Hidx : Forall (fun i => (i < length rows)%nat)
                          (seq 0 (length rows)))
      by (apply Forall_forall; intros i Hi; apply in_seq in Hi; lia).
    destruct (each_row_runs n q q_ arr rows _ Hidx h g Hrows Hq)
      as [made E].
    rewrite map_seq_nth in E. exists made.
    change (apply_along_axis
              (fun y => sum_of_relative_squared_differences y n q_) rows)
      with (map_rows
              (fun y => sum_of_relative_squared_differences y n q_) rows).
    destruct (map_rows _ rows) as [vs|].
    + now rewrite (bind_some _ _ _ _ _ E).
    + now rewrite (bind_none _ _ _ _ E).
Qed.

(** The value-level [power], by the result of its call of the sampler. *)
Lemma power_value (p_ : list F) (n : Z) (alpha : F) (q : option (list F))
    (nsim : nat) (g : G) :
  power multinomial_rvs chi2_cdf p_ n alpha q nsim g
  = match multinomial_rvs n p_ nsim g with
    | (Some rows, g') =>
        (option_map
           (fun stats =>
              mean (map (fun s =>
                           f_lt (f_sub f_one
                                   (chi2_cdf s (Z.of_nat (length p_) - 1)))
                                alpha) stats))
           (apply_along_axis
              (fun y => sum_of_relative_squared_differences y n (null_of p_ q))
              rows), g')
    | (None, g') => (None, g')
    end.
Proof.
  unfold power, bind, lift, ret. fold (null_of p_ q).
  destruct (multinomial_rvs n p_ nsim g) as [[rows|] g']; [|reflexivity].
  destruct (apply_along_axis _ rows) as [stats|]; [|reflexivity].
  simpl. now rewrite map_map.
Qed.

(** A call of [power] on the store returns what the function of the
    arrays' contents returns from the generator state it starts in; it
    leaves the generator as its call of the sampler leaves it, and every
    array of the store as it was. *)
Lemma power_runs (h : Store.heap) (g : G) (p : nat) (n : Z) (alpha : F)
    (p_null : option nat) (nsim : nat) (p_ : list F)
    (q : option (list F)) :
  Store.floats_of h p = Some p_ ->
  Store.optional_floats_of h p_null = Some q ->
  Store.runs (Store.power multinomial_rvs chi2_cdf p n alpha p_null nsim) h g
    (fst (power multinomial_rvs chi2_cdf p_ n alpha q nsim g))
    (snd (multinomial_rvs n p_ nsim g)).
Proof.
  intros Hp Hq. unfold Store.runs, Store.power.
  rewrite (bind_some _ _ _ _ _
             (get_run (fun h => Store.floats_of h p) h g p_ Hp)).
  cbv zeta.
  destruct (null_in_store h g p p_ p_null q Hp Hq) as (made0 & r & E0 & Hr).
  rewrite (bind_some _ _ _ _ _ E0).
  set (h1 := h ++ made0) in *.
  pose proof (rvs_run h1 g n p nsim p_ (floats_of_grows _ _ _ _ Hp)) as Es.
  rewrite power_value.
  destruct (multinomial_rvs n p_ nsim g) as [[rows|] g']; simpl fst; simpl snd.
  2:{ rewrite (bind_none _ _ _ _ Es). now exists made0. }
  rewrite (bind_some _ _ _ _ _ Es).
  set (h2 := h1 ++ [Store.Int2 rows]).
  destruct (apply_along_axis_runs h2 g' n r (null_of p_ q) (length h1) rows
              (rows_of_last h1 rows) (floats_of_grows _ _ _ _ Hr))
    as [made1 E1].
  destruct (apply_along_axis _ rows) as [stats|]; simpl option_map.
  2:{ rewrite (bind_none _ _ _ _ E1). subst h2 h1.
      eexists. rewrite <- !app_assoc. reflexivity. }
  rewrite (bind_some _ _ _ _ _ E1).
  set (h3 := h2 ++ made1).
  unfold Store.cdf.
  rewrite (bind_some _ _ _ _ _
             (read_and_make _ g' (length h3) stats
                (fun a_ => Store.Float1
                   (map (fun s => chi2_cdf s (Z.of_nat (length p_) - 1)) a_))
                (floats_of_last h3 stats))).
  set (h4 := h3 ++ [Store.Float1 stats]).
  unfold Store.one_minus.
  rewrite (bind_some _ _ _ _ _
             (read_and_make _ g' (length h4) _
                (fun a_ => Store.Float1 (map (fun c => f_sub f_one c) a_))
                (floats_of_last h4 _))).
  set (h5 := h4 ++ [Store.Float1 _]).
  unfold Store.less_than.
  rewrite (bind_some _ _ _ _ _
             (read_and_make _ g' (length h5) _
                (fun a_ => Store.Bool1 (map (fun pv => f_lt pv alpha) a_))
                (floats_of_last h5 _))).
  unfold Store.mean_of, bind, Store.get, ret. simpl fst.
  rewrite bools_of_last. rewrite !map_map.
  subst h5 h4 h3 h2 h1.
  eexists. rewrite <- !app_assoc. reflexivity.
Qed.

End StoreFacts.




(** C9, as the claim states it, fails: with one trial each, the n = 10
    run that draws [7,1,1,1] returns 1.0 and the n = 1000 run that draws
    [262,238,251,249] returns 0.0, for p = [0.27,0.23,0.25,0.25] against
    the uniform null at alpha = 0.05. *)
Lemma power_estimate_not_monotone_in_n :
  exists g10 g1000 : Tape.state,
    forall cdf : B64.float -> Z -> B64.float,
      critical_between cdf 3 alpha_default (B64.of_int 7) (B64.of_int 10) ->
      fst (power Tape.rvs cdf p_sim 10 alpha_default None 1 g10)
      = Some (B64.of_int 1)
      /\ fst (power Tape.rvs cdf p_sim 1000 alpha_default None 1 g1000)
         = Some (B64.of_int 0)
      /\ f_lt (B64.of_int 0) (B64.of_int 1) = true.
Proof.
  exists [[7; 1; 1; 1]], draw_of_1000. intros cdf Hcdf. split; [|split].
  - rewrite one_draw_rejected; [reflexivity | assumption | | ];
      vm_compute; reflexivity.
  - unfold draw_of_1000.
    rewrite one_draw_kept; [reflexivity | assumption | | ];
      vm_compute; reflexivity.
  - reflexivity.
Qed.

(** C9. For fixed p, p_null, alpha and nsim the sample size does not
    order the values [power] returns; the draws do. The value returned
    at n1 is above the value returned at n2 exactly when more of the
    draws at n1 than of the draws at n2 are rejected (have a p-value
    below alpha); so the estimate does not decrease from n1 to n2
    exactly when the number of rejected draws does not. *)
Theorem power_order_is_rejection_order
    {F : Type} `{Float64 F} (G : Type)
    (multinomial_rvs : Z -> list F -> nat -> G -> option (list (list Z)) * G)
    (chi2_cdf : F -> Z -> F)
    (p : list F) (alpha : F) (p_null : option (list F)) (nsim : nat)
    (n1 n2 : Z) (g1 g1' g2 g2' : G) (draws1 draws2 : list (list Z)) :
  let k := length p in
  let q := null_of p p_null in
  multinomial_rvs n1 p nsim g1 = (Some draws1, g1') ->
  multinomial_rvs n2 p nsim g2 = (Some draws2, g2') ->
  length draws1 = nsim -> length draws2 = nsim ->
  (0 < nsim)%nat ->
  Forall (fun draw => length draw = k) draws1 ->
  Forall (fun draw => length draw = k) draws2 ->
  length q = k ->
  counts_exactly nsim ->
  fractions_ordered nsim ->
  exists v1 v2 : F,
    power multinomial_rvs chi2_cdf p n1 alpha p_null nsim g1 = (Some v1, g1')
    /\ power multinomial_rvs chi2_cdf p n2 alpha p_null nsim g2
       = (Some v2, g2')
    /\ f_lt v2 v1
       = Nat.ltb (rejected chi2_cdf q n2 k alpha draws2)
                 (rejected chi2_cdf q n1 k alpha draws1).
Proof.
  intros k q H1 H2 L1 L2 Hpos R1 R2 Hq Hcount Hord.
  exists (fraction (rejected chi2_cdf q n1 k alpha draws1) nsim),
         (fraction (rejected chi2_cdf q n2 k alpha draws2) nsim).
  split; [|split].
  - now apply power_fraction.
  - now apply power_fraction.
  - apply Hord.
    + rewrite <- L2. apply rejected_le.
    + rewrite <- L1. apply rejected_le.
Qed.

(** The draws of the counterexample: at n = 10 one draw, rejected; at
    n = 1000 one draw, kept; the estimate at 1000 is below the one at
    10. *)
Lemma power_order_is_rejection_order_witness :
  exists v1 v2 : B64.float,
    power Tape.rvs (step_cdf (B64.of_int 8)) p_sim 10 alpha_default None 1
      [[7; 1; 1; 1]] = (Some v1, [])
    /\ power Tape.rvs (step_cdf (B64.of_int 8)) p_sim 1000 alpha_default
         None 1 draw_of_1000 = (Some v2, [])
    /\ f_lt v2 v1
       = Nat.ltb
           (rejected (step_cdf (B64.of_int 8)) (null_of p_sim None) 1000 4
              alpha_default draw_of_1000)
           (rejected (step_cdf (B64.of_int 8)) (null_of p_sim None) 10 4
              alpha_default [[7; 1; 1; 1]]).
Proof.
  apply (power_order_is_rejection_order Tape.state Tape.rvs
           (step_cdf (B64.of_int 8)) p_sim alpha_default None 1 10 1000
           [[7; 1; 1; 1]] [] draw_of_1000 [] [[7; 1; 1; 1]] draw_of_1000).
  - vm_compute. reflexivity.
  - vm_compute. reflexivity.
  - reflexivity.
  - reflexivity.
  - lia.
  - repeat constructor.
  - repeat constructor.
  - reflexivity.
  - exact binary64_counts_to_1.
  - exact binary64_orders_fractions_over_1.
Defined.

(** ** Permuting the categories *)

Section PermutationFacts.
Context {F : Type} `{Float64 F}.

Lemma permute_length {A : Type} (sigma : list nat) (l : list A) (d : A) :
  length (permute sigma l d) = length sigma.
Proof. apply length_map. Qed.

Lemma permute_nth {A : Type} (sigma : list nat) (l : list A) (d : A)
    (i : nat) :
  (i < length sigma)%nat ->
  nth i (permute sigma l d) d = nth (nth i sigma 0%nat) l d.
Proof.
  intros Hi. unfold permute.
  rewrite (nth_indep _ d (nth 0%nat l d)) by now rewrite length_map.
  apply (map_nth (fun j => nth j l d)).
Qed.

Lemma term_at_permute (sigma : list nat) (x : list Z) (n : Z)
    (p : list F) (i : nat) :
  (i < length sigma)%nat ->
  term_at (permute sigma x 0) n (permute sigma p f_zero) i
  = term_at x n p (nth i sigma 0%nat).
Proof.
  intros Hi. unfold term_at, expected_at.
  now rewrite !permute_nth by assumption.
Qed.

(** On permuted arrays the call adds up the terms of the original
    arrays, in the order [sigma]. *)
Lemma statistic_permuted_terms (sigma : list nat) (x : list Z) (n : Z)
    (p : list F) :
  sum_of_relative_squared_differences
    (permute sigma x 0) n (permute sigma p f_zero)
  = Some (np_sum (map (term_at x n p) sigma)).
Proof.
  rewrite statistic_spec by now rewrite !permute_length.
  unfold TestStatistic_spec. rewrite permute_length.
  do 2 f_equal.
  transitivity
    (map (term_at x n p)
         (map (fun i => nth i sigma 0%nat) (seq 0 (length sigma)))).
  - rewrite map_map. apply map_ext_in. intros i Hi. apply in_seq in Hi.
    apply term_at_permute. lia.
  - now rewrite map_seq_nth.
Qed.

(** In every arithmetic the terms are the same, up to their order. *)
Lemma permuted_terms_permutation (sigma : list nat) (x : list Z) (n : Z)
    (p : list F) :
  Permutation sigma (seq 0 (length p)) ->
  Permutation (map (term_at x n p) sigma)
              (map (term_at x n p) (seq 0 (length p))).
Proof. apply Permutation_map. Qed.

Section ExactAddition.
Hypothesis add_comm : forall a b : F, f_add a b = f_add b a.
Hypothesis add_assoc :
  forall a b c : F, f_add a (f_add b c) = f_add (f_add a b) c.

Lemma add_swap (a b c : F) :
  f_add (f_add a b) c = f_add (f_add a c) b.
Proof.
  now rewrite <- add_assoc, (add_comm b c), add_assoc.
Qed.

Lemma fold_add_permutation (l l' : list F) :
  Permutation l l' ->
  forall acc, fold_left f_add l acc = fold_left f_add l' acc.
Proof.
  induction 1 as [|t l l' _ IH|t u l|l l' l'' _ IH1 _ IH2];
    intros acc; simpl.
  - reflexivity.
  - apply IH.
  - now rewrite add_swap.
  - now rewrite IH1.
Qed.

Lemma np_sum_permutation (l l' : list F) :
  Permutation l l' -> np_sum l = np_sum l'.
Proof. intros P. now apply fold_add_permutation. Qed.

End ExactAddition.

End PermutationFacts.

Lemma sigma_is_permutation : Permutation [1; 3; 2; 0]%nat (seq 0 4).
Proof.
  symmetry. simpl.
  apply (Permutation_cons_app [1; 3; 2]%nat [] 0%nat).
  apply perm_skip. apply perm_swap.
Defined.

(** C4, as the claim states it, fails in binary64: for
    p_null = [0.27, 0.23, 0.25, 0.25] (which sums to 1.0), n = 3 and
    x = [0, 0, 0, 3] every expected count is positive and the statistic
    is 9.0; with the categories taken in the order 1, 3, 2, 0, that is
    x = [0, 3, 0, 0] against [0.23, 0.25, 0.25, 0.27], it is
    9.000000000000002. *)
Lemma statistic_changes_under_permutation :
  Permutation [1; 3; 2; 0]%nat (seq 0 (length p_sim))
  /\ np_sum p_sim = B64.of_int 1
  /\ forallb (fun e => f_lt f_zero e) (expect_of 3 p_sim) = true
  /\ sum_of_relative_squared_differences [0; 0; 0; 3] 3 p_sim
     = Some (B64.of_int 9)
  /\ sum_of_relative_squared_differences
       (permute [1; 3; 2; 0]%nat [0; 0; 0; 3] 0) 3
       (permute [1; 3; 2; 0]%nat p_sim f_zero)
     = Some (S754_finite false 5066549580791809 (-49))
  /\ f_eq (B64.of_int 9) (S754_finite false 5066549580791809 (-49)) = false.
Proof.
  split; [exact sigma_is_permutation|].
  repeat split; vm_compute; reflexivity.
Qed.

(** C4. Applying one permutation of the category indices to both [x]
    and [p_null] makes the call add up the same terms
    (expected_i - x_i)^2 / expected_i in the permuted order, in every
    arithmetic: on the original arrays it adds the terms of the
    categories 0, 1, ..., k-1 in that order, on the permuted arrays the
    terms of the categories sigma_0, sigma_1, ... of the original
    arrays. The statistic is unchanged when the additions of [np.sum] are
    exact, that is commutative and associative as in real arithmetic.
    (In binary64 the rounded sum of the reordered terms may differ.) *)
Theorem statistic_permutation_invariance
    {F : Type} `{Float64 F}
    (sigma : list nat) (x : list Z) (n : Z) (p_null : list F) :
  length x = length p_null ->
  Permutation sigma (seq 0 (length p_null)) ->
  sum_of_relative_squared_differences x n p_null
  = Some (np_sum (map (term_at x n p_null) (seq 0 (length p_null))))
  /\ sum_of_relative_squared_differences
       (permute sigma x 0) n (permute sigma p_null f_zero)
     = Some (np_sum (map (term_at x n p_null) sigma))
  /\ ((forall a b : F, f_add a b = f_add b a) ->
      (forall a b c : F, f_add a (f_add b c) = f_add (f_add a b) c) ->
      sum_of_relative_squared_differences
        (permute sigma x 0) n (permute sigma p_null f_zero)
      = sum_of_relative_squared_differences x n p_null).
Proof.
  intros E P. split; [|split].
  - now apply statistic_spec.
  - apply statistic_permuted_terms.
  - intros add_comm add_assoc.
    rewrite statistic_permuted_terms, statistic_spec by assumption.
    f_equal. apply np_sum_permutation; try assumption.
    now apply permuted_terms_permutation.
Qed.

(** In exact arithmetic the data of the counterexample give one value in
    both orders. *)
Lemma statistic_permutation_invariance_witness :
  sum_of_relative_squared_differences
    (permute [1; 3; 2; 0]%nat [0; 0; 0; 3] 0) 3
    (permute [1; 3; 2; 0]%nat p_sim_exact f_zero)
  = sum_of_relative_squared_differences [0; 0; 0; 3] 3 p_sim_exact.
Proof.
  apply (proj2 (proj2 (@statistic_permutation_invariance Qc Exact.rational
                         [1; 3; 2; 0]%nat [0; 0; 0; 3] 3 p_sim_exact
                         eq_refl sigma_is_permutation))).
  - exact Qcplus_comm.
  - exact Qcplus_assoc.
Defined.

(** ** When the statistic is zero *)

(** C5, as the claim states it, fails in binary64: for
    p = [2^-600, 1.0] (which sums to 1.0 in float64), n = 1 and
    x = [0, 1] both expected counts are positive and the statistic is
    0.0, yet x_0 = 0 is not p_0 * n = 2^-600: the square of the
    difference underflows. *)
Lemma statistic_zero_by_underflow :
  np_sum [tiny; B64.of_int 1] = B64.of_int 1
  /\ forallb (fun e => f_lt f_zero e) (expect_of 1 [tiny; B64.of_int 1])
     = true
  /\ sum_of_relative_squared_differences [0; 1] 1 [tiny; B64.of_int 1]
     = Some (B64.of_int 0)
  /\ f_eq (f_of_int (nth 0 [0; 1] 0))
          (expected_at 1 [tiny; B64.of_int 1] 0) = false.
Proof. repeat split; vm_compute; reflexivity. Qed.

Module ExactFacts.
Local Open Scope Qc_scope.

Lemma square_nonneg (a : Qc) : 0 <= a * a.
Proof.
  destruct (Qclt_le_dec a 0) as [Hneg|Hpos].
  - replace (a * a) with ((- a) * (- a)) by ring.
    assert (Hle : 0 <= - a).
    { apply Qclt_le_weak in Hneg. apply Qcopp_le_compat in Hneg.
      now replace (- 0) with 0 in Hneg by ring. }
    rewrite <- (Qcmult_0_l (- a)) at 1.
    now apply Qcmult_le_compat_r.
  - rewrite <- (Qcmult_0_l a) at 1. now apply Qcmult_le_compat_r.
Qed.

Lemma inv_pos (e : Qc) : 0 < e -> 0 < / e.
Proof.
  unfold Qclt, Qcinv, Q2Qc. cbn [this]. intros He.
  rewrite !Qred_correct. rewrite Qred_correct in He.
  now apply Qinv_lt_0_compat.
Qed.

Lemma term_nonneg (d e : Qc) : 0 < e -> 0 <= (d * d) / e.
Proof.
  intros He. unfold Qcdiv.
  rewrite <- (Qcmult_0_l (/ e)) at 1.
  apply Qcmult_le_compat_r; [apply square_nonneg|].
  apply Qclt_le_weak. now apply inv_pos.
Qed.

Lemma term_zero (d e : Qc) : 0 < e -> ((d * d) / e = 0 <-> d = 0).
Proof.
  intros He. split.
  - unfold Qcdiv. intros Hz.
    destruct (Qcmult_integral _ _ Hz) as [Hsq|Hinv].
    + now destruct (Qcmult_integral _ _ Hsq).
    + apply inv_pos in He. apply Qclt_not_eq in He. congruence.
  - intros ->. unfold Qcdiv. now rewrite !Qcmult_0_l.
Qed.

Lemma add_zero_nonneg (a b : Qc) :
  0 <= a -> 0 <= b -> a + b = 0 -> a = 0 /\ b = 0.
Proof.
  intros Ha Hb Hs.
  assert (Ha' : a <= 0).
  { rewrite <- Hs. rewrite <- (Qcplus_0_r a) at 1.
    apply Qcplus_le_compat; [apply Qcle_refl | assumption]. }
  assert (Ea : a = 0) by now apply Qcle_antisym.
  split; [assumption|]. subst a. now rewrite Qcplus_0_l in Hs.
Qed.

Lemma add_nonneg (a b : Qc) : 0 <= a -> 0 <= b -> 0 <= a + b.
Proof.
  intros Ha Hb. rewrite <- (Qcplus_0_r 0).
  now apply Qcplus_le_compat.
Qed.

Lemma fold_add_zero (l : list Qc) :
  Forall (fun t => 0 <= t) l ->
  forall acc, 0 <= acc ->
    (fold_left Qcplus l acc = 0 <-> acc = 0 /\ Forall (fun t => t = 0) l).
Proof.
  induction 1 as [|t l Ht _ IH]; intros acc Hacc; simpl.
  - split; [intros ->; now split | now intros [-> _]].
  - rewrite IH by now apply add_nonneg. split.
    + intros [Hs Hl]. destruct (add_zero_nonneg _ _ Hacc Ht Hs) as [-> ->].
      split; [reflexivity | now constructor].
    + intros [-> Hl]. inversion Hl; subst.
      split; [now rewrite Qcplus_0_l | assumption].
Qed.

Lemma minus_zero (e v : Qc) : e - v = 0 <-> v = e.
Proof.
  split.
  - intros Hz. replace e with ((e - v) + v) by ring.
    rewrite Hz. now rewrite Qcplus_0_l.
  - intros ->. ring.
Qed.

End ExactFacts.

Module B64Zero.
Import B64.

(** [v == e] for a positive finite [e]: the two are one double. *)
Lemma eq_positive_finite (v e : float) :
  f_lt f_zero e = true -> is_inf e = false -> f_eq v e = true ->
  v = e /\ exists m ex, e = S754_finite false m ex.
Proof.
  destruct e as [s|s| |s m ex]; simpl; try discriminate;
    destruct s; try discriminate.
  intros _ _.
  destruct v as [sv|sv| |sv mv exv]; unfold SFeqb, SFcompare;
    try discriminate; try (destruct sv; discriminate).
  destruct sv; try discriminate.
  destruct (Z.compare_spec exv ex) as [Ee| |]; try discriminate.
  destruct (Pos.compare_cont Eq mv m) eqn:Em; try discriminate.
  intros _. rewrite Pos.compare_cont_spec in Em.
  destruct (Pos.compare_spec mv m) as [Emm| |]; try discriminate Em.
  subst. split; [reflexivity|]. now exists m, ex.
Qed.

Lemma sub_self (m : positive) (ex : Z) :
  SFsub prec emax (S754_finite false m ex) (S754_finite false m ex)
  = S754_zero false.
Proof.
  unfold SFsub. cbv beta iota zeta. rewrite Z.sub_diag. reflexivity.
Qed.

Lemma fold_add_zeros (l : list float) :
  Forall (fun t => t = S754_zero false) l ->
  fold_left (SFadd prec emax) l (S754_zero false) = S754_zero false.
Proof.
  induction 1 as [|t l -> _ IH]; simpl; [reflexivity | exact IH].
Qed.

End B64Zero.

Lemma statistic_zero_exact (x : list Z) (n : Z) (p : list Qc) :
  length x = length p ->
  (forall i, (i < length p)%nat -> (0 < expected_at n p i)%Qc) ->
  (sum_of_relative_squared_differences x n p = Some (Q2Qc 0)
   <-> forall i, (i < length p)%nat ->
         Exact.of_int (nth i x 0) = expected_at n p i).
Proof.
  intros E Hpos. rewrite statistic_spec by assumption.
  unfold TestStatistic_spec, np_sum.
  assert (Hnn : Forall (fun t => (0 <= t)%Qc)
                  (map (term_at x n p) (seq 0 (length p)))).
  { apply Forall_forall. intros t Ht. apply in_map_iff in Ht.
    destruct Ht as (i & <- & Hi). apply in_seq in Hi.
    apply ExactFacts.term_nonneg. apply Hpos. lia. }
  split.
  - intros Hz. injection Hz as Hz.
    apply (ExactFacts.fold_add_zero _ Hnn) in Hz; [|apply Qcle_refl].
    destruct Hz as [_ Hall]. intros i Hi.
    rewrite Forall_forall in Hall.
    assert (Ht : term_at x n p i = Q2Qc 0).
    { apply Hall. apply in_map. apply in_seq. lia. }
    unfold term_at, f_square in Ht.
    apply (proj1 (ExactFacts.term_zero _ _ (Hpos i Hi))) in Ht.
    exact (proj1 (ExactFacts.minus_zero _ _) Ht).
  - intros Heq. f_equal.
    apply (ExactFacts.fold_add_zero _ Hnn); [apply Qcle_refl|].
    split; [reflexivity|].
    apply Forall_forall. intros t Ht. apply in_map_iff in Ht.
    destruct Ht as (i & <- & Hi). apply in_seq in Hi.
    assert (Hi' : (i < length p)%nat) by lia.
    unfold term_at, f_square.
    apply (proj2 (ExactFacts.term_zero _ _ (Hpos i Hi'))).
    apply (proj2 (ExactFacts.minus_zero _ _)). now apply Heq.
Qed.

Lemma statistic_zero_binary64 (x : list Z) (n : Z) (p : list B64.float) :
  length x = length p ->
  (forall i, (i < length p)%nat ->
     f_lt f_zero (expected_at n p i) = true
     /\ B64.is_inf (expected_at n p i) = false) ->
  (forall i, (i < length p)%nat ->
     f_eq (f_of_int (nth i x 0)) (expected_at n p i) = true) ->
  sum_of_relative_squared_differences x n p = Some (B64.of_int 0).
Proof.
  intros E Hpos Heq. rewrite statistic_spec by assumption.
  f_equal. unfold TestStatistic_spec, np_sum.
  apply B64Zero.fold_add_zeros.
  apply Forall_forall. intros t Ht. apply in_map_iff in Ht.
  destruct Ht as (i & <- & Hi). apply in_seq in Hi.
  assert (Hi' : (i < length p)%nat) by lia.
  destruct (Hpos i Hi') as [Hlt Hfin].
  destruct (B64Zero.eq_positive_finite _ _ Hlt Hfin (Heq i Hi'))
    as (Ev & m & ex & Ee).
  unfold term_at. rewrite Ev, Ee.
  change (f_sub (S754_finite false m ex) (S754_finite false m ex))
    with (SFsub B64.prec B64.emax
            (S754_finite false m ex) (S754_finite false m ex)).
  rewrite B64Zero.sub_self. reflexivity.
Qed.

(** C5. For a count vector [x] and a probability vector [p] of one
    length with every [expected_i = p_i * n] strictly positive: in exact
    arithmetic the statistic is 0 if and only if [x_i = p_i * n] for
    every category i; in binary64, with the expected counts finite,
    [x_i == p_i * n] for every i makes the statistic 0.0. (The converse
    fails in binary64, because the square of a difference can
    underflow.) *)
Theorem statistic_zero_iff_expected :
  (forall (x : list Z) (n : Z) (p : list Qc),
      length x = length p ->
      (forall i, (i < length p)%nat -> (0 < expected_at n p i)%Qc) ->
      (sum_of_relative_squared_differences x n p = Some (Q2Qc 0)
       <-> forall i, (i < length p)%nat ->
             Exact.of_int (nth i x 0) = expected_at n p i))
  /\ (forall (x : list Z) (n : Z) (p : list B64.float),
        length x = length p ->
        (forall i, (i < length p)%nat ->
           f_lt f_zero (expected_at n p i) = true
           /\ B64.is_inf (expected_at n p i) = false) ->
        (forall i, (i < length p)%nat ->
           f_eq (f_of_int (nth i x 0)) (expected_at n p i) = true) ->
        sum_of_relative_squared_differences x n p = Some (B64.of_int 0)).
Proof.
  split.
  - exact statistic_zero_exact.
  - exact statistic_zero_binary64.
Qed.

(** x = [1,1], n = 2, p = [1/2, 1/2]: both expected counts are 1, in
    either arithmetic. *)
Lemma statistic_zero_iff_expected_witness :
  (sum_of_relative_squared_differences [1; 1] 2
     [Exact.ratio 1 2; Exact.ratio 1 2] = Some (Q2Qc 0)
   <-> forall i, (i < 2)%nat ->
         Exact.of_int (nth i [1; 1] 0)
         = expected_at 2 [Exact.ratio 1 2; Exact.ratio 1 2] i)
  /\ sum_of_relative_squared_differences [1; 1] 2
       [B64.ratio 1 2; B64.ratio 1 2] = Some (B64.of_int 0).
Proof.
  split.
  - apply (proj1 statistic_zero_iff_expected
             [1; 1] 2 [Exact.ratio 1 2; Exact.ratio 1 2]).
    + reflexivity.
    + intros i Hi. simpl in Hi.
      assert (E : i = 0%nat \/ i = 1%nat) by lia.
      destruct E as [-> | ->]; vm_compute; reflexivity.
  - apply (proj2 statistic_zero_iff_expected
             [1; 1] 2 [B64.ratio 1 2; B64.ratio 1 2]).
    + reflexivity.
    + intros i Hi. simpl in Hi.
      assert (E : i = 0%nat \/ i = 1%nat) by lia.
      destruct E as [-> | ->]; split; vm_compute; reflexivity.
    + intros i Hi. simpl in Hi.
      assert (E : i = 0%nat \/ i = 1%nat) by lia.
      destruct E as [-> | ->]; vm_compute; reflexivity.
Defined.

(** ** Exact arithmetic counts and orders fractions *)

Module ExactCounting.
Local Open Scope Qc_scope.

Lemma of_int_add (a b : Z) :
  Exact.of_int a + Exact.of_int b = Exact.of_int (a + b).
Proof.
  unfold Exact.of_int, Qcplus. apply Q2Qc_eq_iff.
  unfold Q2Qc. cbn [this].
  rewrite !Qred_correct. now rewrite inject_Z_plus.
Qed.

Lemma counts (m : nat) : counts_exactly (F := Qc) m.
Proof.
  split; [reflexivity|]. intros c _. split.
  - apply (of_int_add c 1).
  - change (f_add (f_of_int c) f_zero) with (Exact.of_int c + 0).
    apply Qcplus_0_r.
Qed.

Lemma of_int_lt (a b : Z) :
  Exact.of_int a < Exact.of_int b <-> (a < b)%Z.
Proof.
  unfold Qclt, Exact.of_int, Q2Qc. cbn [this]. rewrite !Qred_correct.
  rewrite <- Zlt_Qlt. reflexivity.
Qed.

Lemma ltb_lt (a b : Qc) : Exact.ltb a b = true <-> a < b.
Proof.
  unfold Exact.ltb. rewrite Qclt_alt.
  destruct (a ?= b); split; congruence.
Qed.

Lemma div_lt (a b d : Qc) : 0 < d -> (a / d < b / d <-> a < b).
Proof.
  intros Hd. pose proof (ExactFacts.inv_pos d Hd) as Hi.
  unfold Qcdiv. split.
  - intros Hlt. destruct (Qclt_le_dec a b) as [|Hle]; [assumption|].
    exfalso. apply (Qclt_not_le _ _ Hlt).
    apply Qcmult_le_compat_r; [assumption | now apply Qclt_le_weak].
  - intros Hlt. now apply Qcmult_lt_compat_r.
Qed.

Lemma orders (m : nat) : (0 < m)%nat -> fractions_ordered (F := Qc) m.
Proof.
  intros Hm c1 c2 _ _. unfold fraction.
  change (f_lt ?a ?b) with (Exact.ltb a b).
  change (f_div ?a ?b) with (Qcdiv a b).
  change (f_of_int ?z) with (Exact.of_int z).
  assert (Hd : 0 < Exact.of_int (Z.of_nat m)).
  { change 0 with (Exact.of_int (Z.of_nat 0)). apply of_int_lt.
    now apply Nat2Z.inj_lt. }
  destruct (Nat.ltb_spec c1 c2) as [Hlt|Hge].
  - apply ltb_lt. apply div_lt; [assumption|]. apply of_int_lt.
    now apply Nat2Z.inj_lt.
  - destruct (Exact.ltb _ _) eqn:Eb; [|reflexivity].
    apply (proj1 (ltb_lt _ _)) in Eb.
    apply (proj1 (div_lt _ _ _ Hd)) in Eb.
    apply (proj1 (of_int_lt _ _)) in Eb.
    apply (proj2 (Nat2Z.inj_lt _ _)) in Eb.
    exfalso. apply (Nat.lt_irrefl c1).
    now apply Nat.lt_le_trans with c2.
Qed.

End ExactCounting.

(** * Further properties of the code *)

(** ** Broadcasting in the statistic *)

Section BroadcastFacts.
Context {F : Type} `{Float64 F}.

Lemma broadcast_shape_inv (a b m : nat) :
  broadcast_shape a b = Some m ->
  (a = m \/ a = 1%nat) /\ (b = m \/ b = 1%nat).
Proof.
  unfold broadcast_shape.
  destruct (Nat.eqb_spec a b) as [->|Hab].
  - intros [= ->]. auto.
  - destruct (Nat.eqb_spec a 1) as [->|Ha].
    + intros [= ->]. auto.
    + destruct (Nat.eqb_spec b 1) as [->|Hb]; [|discriminate].
      intros [= ->]. auto.
Qed.

Lemma broadcast_shape_none (a b : nat) :
  broadcast_shape a b = None <-> a <> b /\ a <> 1%nat /\ b <> 1%nat.
Proof.
  unfold broadcast_shape.
  destruct (Nat.eqb_spec a b) as [->|Hab].
  - split; [discriminate | intros [E _]; now elim E].
  - destruct (Nat.eqb_spec a 1) as [->|Ha].
    + split; [discriminate | intros (_ & E & _); now elim E].
    + destruct (Nat.eqb_spec b 1) as [->|Hb].
      * split; [discriminate | intros (_ & _ & E); now elim E].
      * split; auto.
Qed.

Lemma broadcast_to_length {A : Type} (l : list A) (m : nat) :
  length l = m \/ length l = 1%nat -> length (broadcast_to l m) = m.
Proof.
  intros [E|E].
  - subst m. now rewrite broadcast_to_same.
  - destruct l as [|a [|b l]]; try discriminate E.
    simpl. apply repeat_length.
Qed.

Lemma elementwise_length {A B C : Type} (f : A -> B -> C)
    (l : list A) (r : list B) (v : list C) :
  elementwise f l r = Some v ->
  broadcast_shape (length l) (length r) = Some (length v).
Proof.
  unfold elementwise.
  destruct (broadcast_shape (length l) (length r)) as [m|] eqn:Es;
    [|discriminate].
  intros [= <-]. f_equal.
  destruct (broadcast_shape_inv _ _ _ Es) as [Hl Hr].
  rewrite zip_with_length; rewrite !broadcast_to_length; auto.
Qed.

Lemma elementwise_none {A B C : Type} (f : A -> B -> C)
    (l : list A) (r : list B) :
  elementwise f l r = None <-> broadcast_shape (length l) (length r) = None.
Proof.
  unfold elementwise.
  destruct (broadcast_shape (length l) (length r)); split; congruence.
Qed.

Lemma statistic_none (x : list Z) (n : Z) (p : list F) :
  sum_of_relative_squared_differences x n p = None
  <-> broadcast_shape (length p) (length x) = None.
Proof.
  unfold sum_of_relative_squared_differences.
  destruct (elementwise _ (expect_of n p) x) as [diff|] eqn:Ed.
  - apply elementwise_length in Ed. rewrite expect_of_length in Ed.
    rewrite Ed.
    destruct (elementwise f_div (map f_square diff) (expect_of n p))
      as [q|] eqn:Eq; [split; discriminate|].
    exfalso. apply elementwise_none in Eq.
    rewrite length_map, expect_of_length in Eq.
    apply broadcast_shape_none in Eq. destruct Eq as (E1 & E2 & E3).
    destruct (broadcast_shape_inv _ _ _ Ed) as [[E|E] [E'|E']]; congruence.
  - apply elementwise_none in Ed. rewrite expect_of_length in Ed.
    now rewrite Ed.
Qed.

Lemma statistic_none_lengths (x : list Z) (n : Z) (p : list F) :
  sum_of_relative_squared_differences x n p = None
  <-> length x <> length p /\ length x <> 1%nat /\ length p <> 1%nat.
Proof.
  rewrite statistic_none, broadcast_shape_none.
  split; intros (E1 & E2 & E3); repeat split; congruence.
Qed.

End BroadcastFacts.

(** Where the conversion of the model and Python's part: the largest
    integer that converts gives the largest double, the next one an
    infinity. *)
Example of_int_at_the_overflow_threshold :
  converts_to_float (2 ^ 1024 - 2 ^ 970 - 1)
  /\ B64.of_int (2 ^ 1024 - 2 ^ 970 - 1)
     = S754_finite false 9007199254740991 971
  /\ ~ converts_to_float (2 ^ 1024 - 2 ^ 970)
  /\ B64.of_int (2 ^ 1024 - 2 ^ 970) = S754_infinity false.
Proof.
  split; [vm_compute; reflexivity|].
  split; [vm_compute; reflexivity|].
  split; [vm_compute; discriminate|].
  vm_compute; reflexivity.
Qed.

(** X1. For an int64 count vector [x] and a sample size [n] that the
    conversion to float64 accepts, the statistic raises exactly when [x]
    and [p] have different lengths and neither has length 1; in every
    other case (equal lengths, empty arrays included, or one array of a
    single entry) it returns a value. *)
Theorem statistic_raises_iff_shapes_differ
    {F : Type} `{Float64 F} (x : list Z) (n : Z) (p : list F) :
  Forall int64 x ->
  converts_to_float n ->
  sum_of_relative_squared_differences x n p = None
  <-> length x <> length p /\ length x <> 1%nat /\ length p <> 1%nat.
Proof.
  intros _ _. rewrite statistic_none, broadcast_shape_none.
  split; intros (E1 & E2 & E3); repeat split; congruence.
Qed.

(** Three counts against two probabilities raise; three against three,
    and three against one, do not. *)
Lemma statistic_raises_iff_shapes_differ_witness :
  sum_of_relative_squared_differences [1; 2; 3] 6
    [B64.ratio 1 2; B64.ratio 1 2] = None
  /\ sum_of_relative_squared_differences [1; 2; 3] 6
       [B64.ratio 1 2; B64.ratio 1 4; B64.ratio 1 4] <> None
  /\ sum_of_relative_squared_differences [1; 2; 3] 6 [B64.ratio 1 3]
     <> None.
Proof.
  assert (Hx : Forall int64 [1; 2; 3])
    by (repeat (constructor;
                  [split; [vm_compute; discriminate | vm_compute; reflexivity]
                  |]); constructor).
  assert (Hn : converts_to_float 6) by (vm_compute; reflexivity).
  split; [|split].
  - apply (proj2 (statistic_raises_iff_shapes_differ [1; 2; 3] 6
                    [B64.ratio 1 2; B64.ratio 1 2] Hx Hn)).
    repeat split; discriminate.
  - intros E.
    apply (proj1 (statistic_raises_iff_shapes_differ [1; 2; 3] 6
                    [B64.ratio 1 2; B64.ratio 1 4; B64.ratio 1 4] Hx Hn))
      in E.
    destruct E as (E & _). now apply E.
  - intros E.
    apply (proj1 (statistic_raises_iff_shapes_differ [1; 2; 3] 6
                    [B64.ratio 1 3] Hx Hn)) in E.
    destruct E as (_ & _ & E). now apply E.
Defined.

Section StretchFacts.
Context {F : Type} `{Float64 F}.

Lemma elementwise_stretch_l {A B C : Type} (f : A -> B -> C)
    (a : A) (r : list B) :
  elementwise f [a] r = Some (zip_with f (repeat a (length r)) r).
Proof.
  unfold elementwise, broadcast_shape. cbn [length].
  destruct (Nat.eqb_spec 1 (length r)) as [E|E].
  - destruct r as [|b [|b' r]]; try discriminate E. reflexivity.
  - cbn [Nat.eqb]. cbv beta iota.
    now rewrite broadcast_to_same.
Qed.

Lemma elementwise_stretch_r {A B C : Type} (f : A -> B -> C)
    (l : list A) (b : B) :
  elementwise f l [b] = Some (zip_with f l (repeat b (length l))).
Proof.
  unfold elementwise, broadcast_shape. cbn [length].
  destruct (Nat.eqb_spec (length l) 1) as [E|E].
  - destruct l as [|a [|a' l]]; try discriminate E. reflexivity.
  - cbn [Nat.eqb]. cbv beta iota.
    now rewrite broadcast_to_same.
Qed.

Lemma expect_of_repeat (n : Z) (q : F) (m : nat) :
  expect_of n (repeat q m) = repeat (f_mul q (f_of_int n)) m.
Proof.
  unfold expect_of.
  induction m as [|m IH]; simpl; [reflexivity | now rewrite IH].
Qed.

Lemma statistic_stretch_p (x : list Z) (n : Z) (q : F) :
  sum_of_relative_squared_differences x n [q]
  = sum_of_relative_squared_differences x n (repeat q (length x)).
Proof.
  rewrite (statistic_terms x n (repeat q (length x)))
    by now rewrite repeat_length.
  unfold sum_of_relative_squared_differences, terms.
  rewrite expect_of_repeat.
  change (expect_of n [q]) with [f_mul q (f_of_int n)].
  rewrite elementwise_stretch_l, elementwise_stretch_r.
  rewrite length_map, zip_with_length by now rewrite repeat_length.
  now rewrite repeat_length.
Qed.

Lemma statistic_stretch_x (c : Z) (n : Z) (p : list F) :
  sum_of_relative_squared_differences [c] n p
  = sum_of_relative_squared_differences (repeat c (length p)) n p.
Proof.
  rewrite (statistic_terms (repeat c (length p)) n p)
    by now rewrite repeat_length.
  unfold sum_of_relative_squared_differences, terms.
  rewrite elementwise_stretch_r, expect_of_length.
  rewrite elementwise_same; [reflexivity|].
  rewrite length_map, zip_with_length;
    now rewrite expect_of_length, ?repeat_length.
Qed.

End StretchFacts.

(** X2. An array of a single entry is stretched over the other one: the
    statistic of [x] against the one-entry [p = [q]] is the statistic
    against [q] repeated [len(x)] times, and the statistic of the
    one-entry [x = [c]] is that of [c] repeated [len(p)] times. *)
Theorem statistic_stretches_single_entry {F : Type} `{Float64 F} :
  (forall (x : list Z) (n : Z) (q : F),
      sum_of_relative_squared_differences x n [q]
      = sum_of_relative_squared_differences x n (repeat q (length x)))
  /\ (forall (c : Z) (n : Z) (p : list F),
         sum_of_relative_squared_differences [c] n p
         = sum_of_relative_squared_differences (repeat c (length p)) n p).
Proof. split; [exact statistic_stretch_p | exact statistic_stretch_x]. Qed.

(** ** The statistic is never negative *)

Module B64Sign.
Import B64.

(** The sign bit is clear, or the value is NaN. *)
Definition sign_clear (v : float) : bool :=
  match v with
  | S754_zero s | S754_infinity s | S754_finite s _ _ => negb s
  | S754_nan => true
  end.

Lemma round_aux_sign (mx ex : Z) (lx : location) :
  sign_clear (binary_round_aux prec emax false mx ex lx) = true.
Proof.
  unfold binary_round_aux.
  destruct (shr_fexp prec emax mx ex lx) as [mrs' e'].
  destruct (shr_fexp prec emax _ e' loc_Exact) as [mrs'' e''].
  destruct (shr_m mrs'') as [|m|m]; try reflexivity.
  destruct (e'' <=? emax - prec); reflexivity.
Qed.

Lemma square_sign (d : float) : sign_clear (SFmul prec emax d d) = true.
Proof.
  destruct d as [s|s| |s m e]; try reflexivity;
    try (destruct s; reflexivity).
  unfold SFmul. rewrite xorb_nilpotent. apply round_aux_sign.
Qed.

Lemma div_sign (a e : float) :
  sign_clear a = true -> f_lt f_zero e = true ->
  sign_clear (SFdiv prec emax a e) = true.
Proof.
  destruct e as [se|se| |se me ee]; try discriminate;
    destruct se; try discriminate; intros Ha _;
    destruct a as [sa|sa| |sa ma ea]; try reflexivity;
    destruct sa; try discriminate Ha; try reflexivity.
  unfold SFdiv.
  destruct (SFdiv_core_binary prec emax (Z.pos ma) ea (Z.pos me) ee)
    as [[mz ez] lz].
  apply round_aux_sign.
Qed.

Lemma add_sign (a b : float) :
  sign_clear a = true -> sign_clear b = true ->
  sign_clear (SFadd prec emax a b) = true.
Proof.
  destruct a as [sa|sa| |sa ma ea]; try reflexivity;
    (destruct sa; try discriminate); intros _;
    destruct b as [sb|sb| |sb mb eb]; try reflexivity;
    (destruct sb; try discriminate); intros _; try reflexivity.
  unfold SFadd, cond_Zopp, binary_normalize. cbn [Z.add].
  unfold binary_round.
  destruct (shl_align _ _ _) as [mz ez]. apply round_aux_sign.
Qed.

Lemma fold_add_sign (l : list float) :
  Forall (fun t => sign_clear t = true) l ->
  forall acc, sign_clear acc = true ->
    sign_clear (fold_left (SFadd prec emax) l acc) = true.
Proof.
  induction 1 as [|t l Ht _ IH]; intros acc Hacc; simpl; [assumption|].
  apply IH. now apply add_sign.
Qed.

Lemma sign_clear_not_lt_zero (v : float) :
  sign_clear v = true -> f_lt v f_zero = false.
Proof.
  destruct v as [s|s| |s m e]; try reflexivity;
    destruct s; try discriminate; reflexivity.
Qed.

End B64Sign.

Lemma fold_add_nonneg (l : list Qc) :
  Forall (fun t => (0 <= t)%Qc) l ->
  forall acc, (0 <= acc)%Qc -> (0 <= fold_left Qcplus l acc)%Qc.
Proof.
  induction 1 as [|t l Ht _ IH]; intros acc Hacc; simpl; [assumption|].
  apply IH. now apply ExactFacts.add_nonneg.
Qed.

(** X3. With arrays of one length and every [expected_i = p_i * n]
    strictly positive the statistic is never negative: in exact
    arithmetic it is at least 0, and in binary64 the comparison
    [statistic < 0.0] is false (the value is 0.0, positive, +inf or
    NaN). *)
Theorem statistic_not_negative :
  (forall (x : list Z) (n : Z) (p : list Qc),
      length x = length p ->
      (forall i, (i < length p)%nat -> (0 < expected_at n p i)%Qc) ->
      exists v, sum_of_relative_squared_differences x n p = Some v
                /\ (0 <= v)%Qc)
  /\ (forall (x : list Z) (n : Z) (p : list B64.float),
         length x = length p ->
         (forall i, (i < length p)%nat
                    -> f_lt f_zero (expected_at n p i) = true) ->
         exists v, sum_of_relative_squared_differences x n p = Some v
                   /\ f_lt v f_zero = false).
Proof.
  split; intros x n p E Hpos; rewrite statistic_spec by assumption;
    eexists; (split; [reflexivity|]); unfold TestStatistic_spec, np_sum.
  - apply fold_add_nonneg; [|apply Qcle_refl].
    apply Forall_forall. intros t Ht. apply in_map_iff in Ht.
    destruct Ht as (i & <- & Hi). apply in_seq in Hi.
    apply ExactFacts.term_nonneg. apply Hpos. lia.
  - apply B64Sign.sign_clear_not_lt_zero.
    apply B64Sign.fold_add_sign; [|reflexivity].
    apply Forall_forall. intros t Ht. apply in_map_iff in Ht.
    destruct Ht as (i & <- & Hi). apply in_seq in Hi.
    unfold term_at. apply B64Sign.div_sign.
    + apply B64Sign.square_sign.
    + apply Hpos. lia.
Qed.

Lemma statistic_not_negative_witness :
  (exists v : Qc,
      sum_of_relative_squared_differences [0; 0; 0; 3] 3 p_sim_exact = Some v
      /\ (0 <= v)%Qc)
  /\ (exists v : B64.float,
         sum_of_relative_squared_differences [0; 0; 0; 3] 3 p_sim = Some v
         /\ f_lt v f_zero = false).
Proof.
  split.
  - apply (proj1 statistic_not_negative [0; 0; 0; 3] 3 p_sim_exact eq_refl).
    intros i Hi. simpl in Hi.
    assert (E : (i = 0 \/ i = 1 \/ i = 2 \/ i = 3)%nat) by lia.
    destruct E as [-> | [-> | [-> | ->]]]; vm_compute; reflexivity.
  - apply (proj2 statistic_not_negative [0; 0; 0; 3] 3 p_sim eq_refl).
    intros i Hi. simpl in Hi.
    assert (E : (i = 0 \/ i = 1 \/ i = 2 \/ i = 3)%nat) by lia.
    destruct E as [-> | [-> | [-> | ->]]]; vm_compute; reflexivity.
Defined.

(** ** Scaling the counts *)

Module ExactScaling.
Local Open Scope Qc_scope.

Lemma of_int_mul (a b : Z) :
  Exact.of_int (a * b) = Exact.of_int a * Exact.of_int b.
Proof.
  unfold Exact.of_int, Qcmult. apply Q2Qc_eq_iff.
  unfold Q2Qc. cbn [this].
  rewrite !Qred_correct. now rewrite inject_Z_mult.
Qed.

Lemma of_int_pos (c : Z) : (0 < c)%Z -> 0 < Exact.of_int c.
Proof.
  intros Hc. change 0 with (Exact.of_int 0).
  now apply ExactCounting.of_int_lt.
Qed.

Lemma term_scales (C e v : Qc) :
  C <> 0 -> e <> 0 ->
  ((C * e - C * v) * (C * e - C * v)) / (C * e)
  = C * (((e - v) * (e - v)) / e).
Proof. intros HC He. field. split; assumption. Qed.

Lemma fold_add_scales (C : Qc) (l : list Qc) (acc : Qc) :
  fold_left Qcplus (map (Qcmult C) l) (C * acc)
  = C * fold_left Qcplus l acc.
Proof.
  revert acc. induction l as [|t l IH]; intros acc; simpl; [reflexivity|].
  rewrite <- IH. f_equal. ring.
Qed.

Lemma term_at_scales (c : Z) (x : list Z) (n : Z) (p : list Qc) (i : nat) :
  (0 < c)%Z -> 0 < expected_at n p i ->
  term_at (map (Z.mul c) x) (c * n) p i
  = Exact.of_int c * term_at x n p i.
Proof.
  intros Hc He. unfold term_at, expected_at, f_square in *.
  cbn [f_div f_sub f_mul f_of_int f_zero Exact.rational] in *.
  replace (nth i (map (Z.mul c) x) 0%Z) with (c * nth i x 0%Z)%Z
    by (rewrite <- (Z.mul_0_r c) at 2; symmetry; apply map_nth).
  rewrite !of_int_mul.
  set (C := Exact.of_int c). set (N := Exact.of_int n) in *.
  set (P := nth i p (Q2Qc 0)) in *. set (X := Exact.of_int (nth i x 0%Z)).
  replace (P * (C * N)) with (C * (P * N)) by ring.
  apply term_scales.
  - apply not_eq_sym, Qclt_not_eq. now apply of_int_pos.
  - apply not_eq_sym, Qclt_not_eq. exact He.
Qed.

End ExactScaling.

(** X4. In exact arithmetic the statistic is homogeneous in the data:
    with every [expected_i] strictly positive, multiplying every count
    and the sample size by an integer [c > 0] multiplies the statistic
    by [c]. *)
Theorem statistic_scales_with_sample
    (c : Z) (x : list Z) (n : Z) (p : list Qc) :
  0 < c ->
  length x = length p ->
  (forall i, (i < length p)%nat -> (0 < expected_at n p i)%Qc) ->
  sum_of_relative_squared_differences (map (Z.mul c) x) (c * n) p
  = option_map (Qcmult (Exact.of_int c))
      (sum_of_relative_squared_differences x n p).
Proof.
  intros Hc E Hpos.
  rewrite !statistic_spec by now rewrite ?length_map.
  cbn [option_map]. f_equal. unfold TestStatistic_spec, np_sum.
  rewrite <- (Qcmult_0_r (Exact.of_int c)) at 1.
  change (f_zero (F := Qc)) with (Q2Qc 0).
  rewrite <- ExactScaling.fold_add_scales. f_equal.
  rewrite map_map. apply map_ext_in. intros i Hi. apply in_seq in Hi.
  apply ExactScaling.term_at_scales; [assumption|]. apply Hpos. lia.
Qed.

(** Ten times the data of [x = [0,0,0,3]], [n = 3]. *)
Lemma statistic_scales_with_sample_witness :
  sum_of_relative_squared_differences
    (map (Z.mul 10) [0; 0; 0; 3]) (10 * 3) p_sim_exact
  = option_map (Qcmult (Exact.of_int 10))
      (sum_of_relative_squared_differences [0; 0; 0; 3] 3 p_sim_exact).
Proof.
  apply (statistic_scales_with_sample 10 [0; 0; 0; 3] 3 p_sim_exact).
  - reflexivity.
  - reflexivity.
  - intros i Hi. simpl in Hi.
    assert (E : (i = 0 \/ i = 1 \/ i = 2 \/ i = 3)%nat) by lia.
    destruct E as [-> | [-> | [-> | ->]]]; vm_compute; reflexivity.
Defined.

(** ** When [power] raises *)

Section RowFacts.
Context {A B : Type}.
Variable f : A -> option B.

Lemma map_rows_none (rows : list A) :
  map_rows f rows = None <-> Exists (fun r => f r = None) rows.
Proof.
  induction rows as [|r rows IH]; simpl.
  - split; [discriminate | intros E; inversion E].
  - destruct (f r) as [v|] eqn:Ev.
    + destruct (map_rows f rows) as [vs|].
      * split; [discriminate|]. intros E. inversion E; subst.
        -- congruence.
        -- match goal with K : Exists _ rows |- _ =>
             apply IH in K; discriminate K end.
      * split; [intros _ | reflexivity].
        apply Exists_cons_tl. now apply IH.
    + split; [intros _ | reflexivity]. now apply Exists_cons_hd.
Qed.

Lemma apply_along_axis_none (rows : list A) :
  apply_along_axis f rows = None
  <-> rows = [] \/ Exists (fun r => f r = None) rows.
Proof.
  destruct rows as [|r rows].
  - simpl. split; auto.
  - change (apply_along_axis f (r :: rows)) with (map_rows f (r :: rows)).
    rewrite map_rows_none. split; [auto|].
    intros [E|E]; [discriminate | assumption].
Qed.

End RowFacts.

(** X5. [power] raises exactly when the sampler raises, when the
    sampler returns no draws (nsim = 0), or when some draw and the null
    have different lengths, neither of them 1; nothing else makes it
    fail. *)
Theorem power_raises_iff
    {F : Type} `{Float64 F} (G : Type)
    (multinomial_rvs : Z -> list F -> nat -> G -> option (list (list Z)) * G)
    (chi2_cdf : F -> Z -> F)
    (p : list F) (n : Z) (alpha : F) (p_null : option (list F))
    (nsim : nat) (g : G) :
  fst (power multinomial_rvs chi2_cdf p n alpha p_null nsim g) = None
  <-> fst (multinomial_rvs n p nsim g) = None
      \/ exists draws,
           fst (multinomial_rvs n p nsim g) = Some draws
           /\ (draws = []
               \/ Exists (fun draw =>
                            length draw <> length (null_of p p_null)
                            /\ length draw <> 1%nat
                            /\ length (null_of p p_null) <> 1%nat) draws).
Proof.
  unfold power, bind, lift, ret. fold (null_of p p_null).
  destruct (multinomial_rvs n p nsim g) as [[x_sim|] g']; cbn [fst].
  - destruct (apply_along_axis _ x_sim) as [stats|] eqn:Ea; cbn [fst].
    + split; [discriminate|]. intros [E|(draws & [= <-] & Hd)];
        [discriminate|].
      assert (Hn : apply_along_axis
                     (fun y => sum_of_relative_squared_differences
                                 y n (null_of p p_null)) x_sim = None).
      { apply apply_along_axis_none. destruct Hd as [Hd|Hd]; [now left|].
        right. eapply Exists_impl; [|exact Hd].
        intros draw Hr. now apply statistic_none_lengths. }
      congruence.
    + split; [intros _ | reflexivity]. right. exists x_sim.
      split; [reflexivity|].
      apply apply_along_axis_none in Ea. destruct Ea as [Ea|Ea]; [now left|].
      right. eapply Exists_impl; [|exact Ea].
      intros draw Hr. now apply statistic_none_lengths in Hr.
  - split; [now left | reflexivity].
Qed.

(** ** The estimate is a proportion *)

Lemma map_rows_length {A B : Type} (f : A -> option B) (rows : list A)
    (vs : list B) :
  map_rows f rows = Some vs -> length vs = length rows.
Proof.
  revert vs. induction rows as [|r rows IH]; simpl; intros vs.
  - now intros [= <-].
  - destruct (f r) as [v|]; [|discriminate].
    destruct (map_rows f rows) as [vs'|]; [|discriminate].
    intros [= <-]. simpl. f_equal. now apply IH.
Qed.

Lemma apply_along_axis_length {A B : Type} (f : A -> option B)
    (rows : list A) (vs : list B) :
  apply_along_axis f rows = Some vs ->
  length vs = length rows /\ (0 < length rows)%nat.
Proof.
  destruct rows as [|r rows]; [discriminate|].
  change (apply_along_axis f (r :: rows)) with (map_rows f (r :: rows)).
  intros E. apply map_rows_length in E. split; [assumption | simpl; lia].
Qed.

Lemma count_true_le (flags : list bool) :
  (count_true flags <= length flags)%nat.
Proof. unfold count_true. apply filter_length_le. Qed.

Module ExactRange.
Local Open Scope Qc_scope.

Lemma of_int_le (a b : Z) : (a <= b)%Z -> Exact.of_int a <= Exact.of_int b.
Proof.
  intros Hab. unfold Qcle, Exact.of_int, Q2Qc. cbn [this].
  rewrite !Qred_correct. now rewrite <- Zle_Qle.
Qed.

Lemma fraction_range (c m : nat) :
  (c <= m)%nat -> (0 < m)%nat ->
  0 <= fraction (F := Qc) c m /\ fraction (F := Qc) c m <= 1.
Proof.
  intros Hc Hm. unfold fraction.
  change (f_div ?a ?b) with (Qcdiv a b).
  change (f_of_int ?z) with (Exact.of_int z).
  assert (Hd : 0 < Exact.of_int (Z.of_nat m)).
  { change 0 with (Exact.of_int (Z.of_nat 0)).
    apply ExactCounting.of_int_lt. now apply Nat2Z.inj_lt. }
  pose proof (ExactFacts.inv_pos _ Hd) as Hi.
  apply Qclt_le_weak in Hi. unfold Qcdiv. split.
  - rewrite <- (Qcmult_0_l (/ Exact.of_int (Z.of_nat m))).
    apply Qcmult_le_compat_r; [|assumption].
    change 0 with (Exact.of_int (Z.of_nat 0)).
    apply of_int_le. apply Nat2Z.inj_le, Nat.le_0_l.
  - rewrite <- (Qcmult_inv_r (Exact.of_int (Z.of_nat m)))
      by (apply not_eq_sym, Qclt_not_eq; exact Hd).
    apply Qcmult_le_compat_r; [|assumption].
    apply of_int_le. now apply Nat2Z.inj_le.
Qed.

Lemma mean_range (flags : list bool) :
  (0 < length flags)%nat ->
  0 <= mean (F := Qc) flags /\ mean (F := Qc) flags <= 1.
Proof.
  intros Hm. rewrite mean_fraction by apply ExactCounting.counts.
  apply fraction_range; [apply count_true_le | assumption].
Qed.

End ExactRange.

(** X6. In exact arithmetic every value [power] returns is a
    proportion: it lies between 0 and 1, whatever the sampler draws and
    whatever the CDF returns. *)
Theorem power_estimate_in_unit_interval
    (G : Type)
    (multinomial_rvs : Z -> list Qc -> nat -> G -> option (list (list Z)) * G)
    (chi2_cdf : Qc -> Z -> Qc)
    (p : list Qc) (n : Z) (alpha : Qc) (p_null : option (list Qc))
    (nsim : nat) (g : G) (v : Qc) :
  fst (power multinomial_rvs chi2_cdf p n alpha p_null nsim g) = Some v ->
  (0 <= v)%Qc /\ (v <= 1)%Qc.
Proof.
  unfold power, bind, lift, ret.
  destruct (multinomial_rvs n p nsim g) as [[x_sim|] g']; [|discriminate].
  destruct (apply_along_axis _ x_sim) as [stats|] eqn:Ea; [|discriminate].
  cbn [fst]. intros [= <-].
  apply apply_along_axis_length in Ea. destruct Ea as [El Hpos].
  apply ExactRange.mean_range. rewrite !length_map. lia.
Qed.

Lemma power_estimate_in_unit_interval_witness :
  match fst (power Tape.rvs (step_cdf (Exact.of_int 8)) p_sim_exact 10
               alpha_default None 2 two_draws_of_10) with
  | Some v => (0 <= v)%Qc /\ (v <= 1)%Qc
  | None => False
  end.
Proof.
  destruct (fst (power Tape.rvs (step_cdf (Exact.of_int 8)) p_sim_exact 10
                   alpha_default None 2 two_draws_of_10)) as [v|] eqn:E.
  - exact (power_estimate_in_unit_interval Tape.state Tape.rvs
             (step_cdf (Exact.of_int 8)) p_sim_exact 10 alpha_default None 2
             two_draws_of_10 v E).
  - vm_compute in E. discriminate E.
Defined.

(** ** The order of the draws does not matter *)

Section OrderFacts.
Context {A B : Type}.
Variable f : A -> option B.

(** Two results of [map_rows]: both exceptions, or values that are the
    same up to their order. *)
Definition same_up_to_order (r1 r2 : option (list B)) : Prop :=
  match r1, r2 with
  | Some v1, Some v2 => Permutation v1 v2
  | None, None => True
  | _, _ => False
  end.

Lemma map_rows_permutation (d1 d2 : list A) :
  Permutation d1 d2 -> same_up_to_order (map_rows f d1) (map_rows f d2).
Proof.
  unfold same_up_to_order.
  induction 1 as [|r d1 d2 _ IH|r r' d|d1 d2 d3 _ IH1 _ IH2]; simpl.
  - constructor.
  - destruct (f r); [|exact I].
    destruct (map_rows f d1), (map_rows f d2); try assumption.
    now constructor.
  - destruct (f r), (f r'), (map_rows f d); try exact I.
    apply perm_swap.
  - destruct (map_rows f d1), (map_rows f d2), (map_rows f d3);
      try assumption; try contradiction.
    now apply perm_trans with l0.
Qed.

End OrderFacts.

Lemma count_true_permutation (l l' : list bool) :
  Permutation l l' -> count_true l = count_true l'.
Proof.
  unfold count_true.
  induction 1 as [|b l l' _ IH|b b' l|l l' l'' _ IH1 _ IH2]; simpl.
  - reflexivity.
  - destruct b; simpl; now rewrite IH.
  - destruct b, b'; reflexivity.
  - now rewrite IH1.
Qed.

(** X7. The estimate depends on the draws as a multiset only: when the
    sampler hands two calls of [power] the same draws in different
    orders, and the arithmetic counts up to their number exactly, the
    two calls return the same result (or both raise). *)
Theorem power_ignores_order_of_draws
    {F : Type} `{Float64 F} (G : Type)
    (multinomial_rvs : Z -> list F -> nat -> G -> option (list (list Z)) * G)
    (chi2_cdf : F -> Z -> F)
    (p : list F) (n : Z) (alpha : F) (p_null : option (list F))
    (nsim : nat) (g1 g1' g2 g2' : G) (draws1 draws2 : list (list Z)) :
  multinomial_rvs n p nsim g1 = (Some draws1, g1') ->
  multinomial_rvs n p nsim g2 = (Some draws2, g2') ->
  Permutation draws1 draws2 ->
  counts_exactly (length draws1) ->
  fst (power multinomial_rvs chi2_cdf p n alpha p_null nsim g1)
  = fst (power multinomial_rvs chi2_cdf p n alpha p_null nsim g2).
Proof.
  intros E1 E2 P Hc. unfold power, bind, lift, ret. rewrite E1, E2.
  fold (null_of p p_null).
  destruct draws1 as [|d draws1].
  - apply Permutation_nil in P. subst draws2. reflexivity.
  - destruct draws2 as [|d' draws2];
      [apply Permutation_sym, Permutation_nil in P; discriminate P|].
    change (apply_along_axis ?f (d :: draws1))
      with (map_rows f (d :: draws1)).
    change (apply_along_axis ?f (d' :: draws2))
      with (map_rows f (d' :: draws2)).
    pose proof (map_rows_permutation
                  (fun y => sum_of_relative_squared_differences
                              y n (null_of p p_null)) _ _ P) as R.
    pose proof (Permutation_length P) as L.
    unfold same_up_to_order in R.
    destruct (map_rows _ (d :: draws1)) as [s1|] eqn:M1,
             (map_rows _ (d' :: draws2)) as [s2|] eqn:M2;
      try contradiction; [|reflexivity].
    cbn [fst]. f_equal.
    apply map_rows_length in M1, M2.
    set (flag := fun s => f_lt (f_sub f_one
                   (chi2_cdf s (Z.of_nat (length p) - 1))) alpha).
    rewrite !map_map.
    change (mean (map flag s1) = mean (map flag s2)).
    rewrite !mean_fraction; rewrite !length_map, ?M1, ?M2, <- ?L;
      try assumption.
    f_equal. apply count_true_permutation. now apply Permutation_map.
Qed.

Lemma power_ignores_order_of_draws_witness :
  fst (power Tape.rvs (step_cdf (B64.of_int 8)) p_sim 10 alpha_default
         None 2 two_draws_of_10)
  = fst (power Tape.rvs (step_cdf (B64.of_int 8)) p_sim 10 alpha_default
           None 2 [[3; 2; 3; 2]; [7; 1; 1; 1]]).
Proof.
  apply (power_ignores_order_of_draws Tape.state Tape.rvs
           (step_cdf (B64.of_int 8)) p_sim 10 alpha_default None 2
           two_draws_of_10 [] [[3; 2; 3; 2]; [7; 1; 1; 1]] []
           two_draws_of_10 [[3; 2; 3; 2]; [7; 1; 1; 1]]).
  - vm_compute. reflexivity.
  - vm_compute. reflexivity.
  - apply perm_swap.
  - exact binary64_counts_to_2.
Defined.

(** ** The default null *)

Module ExactUniform.
Local Open Scope Qc_scope.

Lemma fold_add_repeat (a : Qc) (m : nat) (acc : Qc) :
  fold_left Qcplus (repeat a m) acc
  = acc + Exact.of_int (Z.of_nat m) * a.
Proof.
  revert acc. induction m as [|m IH]; intros acc.
  - simpl. change (Exact.of_int 0) with 0. ring.
  - cbn [repeat fold_left]. rewrite IH.
    replace (Z.of_nat (S m)) with (1 + Z.of_nat m)%Z by lia.
    rewrite <- ExactCounting.of_int_add.
    change (Exact.of_int 1) with 1. ring.
Qed.

Lemma of_nat_pos (m : nat) : (0 < m)%nat -> 0 < Exact.of_int (Z.of_nat m).
Proof.
  intros Hm. change 0 with (Exact.of_int (Z.of_nat 0)).
  apply ExactCounting.of_int_lt. now apply Nat2Z.inj_lt.
Qed.

End ExactUniform.

(** X8. In exact arithmetic the null [power] makes up when none is
    given is a probability vector over the categories of [p]: for a
    non-empty [p] it has [len(p)] entries, each strictly positive, and
    they sum to 1. *)
Theorem uniform_null_is_distribution (p : list Qc) :
  p <> [] ->
  length (uniform_null p) = length p
  /\ Forall (fun q => (0 < q)%Qc) (uniform_null p)
  /\ np_sum (uniform_null p) = Q2Qc 1.
Proof.
  intros Hp.
  assert (Hk : (0 < length p)%nat) by (destruct p; [congruence | simpl; lia]).
  pose proof (ExactUniform.of_nat_pos _ Hk) as Hpos.
  rewrite uniform_null_repeat. split; [apply repeat_length|]. split.
  - apply Forall_forall. intros q Hq. apply repeat_spec in Hq. subst q.
    change (f_div f_one ?k) with (Qcdiv (Q2Qc 1) k).
    change (f_of_int ?z) with (Exact.of_int z).
    unfold Qcdiv. rewrite Qcmult_1_l. now apply ExactFacts.inv_pos.
  - unfold np_sum.
    change (fold_left f_add ?l f_zero) with (fold_left Qcplus l (Q2Qc 0)).
    rewrite ExactUniform.fold_add_repeat.
    change (f_div f_one ?k) with (Qcdiv (Q2Qc 1) k).
    change (f_of_int ?z) with (Exact.of_int z).
    field. apply not_eq_sym, Qclt_not_eq. exact Hpos.
Qed.

Lemma uniform_null_is_distribution_witness :
  length (uniform_null p_sim_exact) = length p_sim_exact
  /\ Forall (fun q => (0 < q)%Qc) (uniform_null p_sim_exact)
  /\ np_sum (uniform_null p_sim_exact) = Q2Qc 1.
Proof.
  apply (uniform_null_is_distribution p_sim_exact). discriminate.
Defined.

(** In binary64 the entries are rounded and their sum need not be 1.0:
    for six categories it is 0.9999999999999999. *)
Example uniform_null_six_binary64 :
  np_sum (uniform_null (repeat (B64.ratio 1 6) 6))
  = S754_finite false 9007199254740991 (-53).
Proof. vm_compute. reflexivity. Qed.

(** ** A NaN probability *)

Module B64NaN.
Import B64.

Lemma fold_add_nan (l : list float) :
  fold_left (SFadd prec emax) l S754_nan = S754_nan.
Proof. induction l as [|t l IH]; simpl; [reflexivity | exact IH]. Qed.

Lemma np_sum_nan (l : list float) : In S754_nan l -> np_sum l = S754_nan.
Proof.
  unfold np_sum. generalize (f_zero (F := float)).
  induction l as [|t l IH]; intros acc Hin; simpl in *; [contradiction|].
  destruct Hin as [->|Hin].
  - assert (SFadd prec emax acc S754_nan = S754_nan) as ->
      by (destruct acc; reflexivity).
    apply fold_add_nan.
  - now apply IH.
Qed.

Lemma term_nan (x : list Z) (n : Z) (p : list float) (i : nat) :
  nth i p f_zero = S754_nan -> term_at x n p i = S754_nan.
Proof.
  intros E. unfold term_at, expected_at. rewrite E. reflexivity.
Qed.

End B64NaN.

(** X9. In binary64 a NaN among the probabilities is not rejected: on
    arrays of one length the call returns NaN. *)
Theorem statistic_nan_probability
    (x : list Z) (n : Z) (p : list B64.float) (i : nat) :
  length x = length p ->
  (i < length p)%nat ->
  nth i p f_zero = S754_nan ->
  sum_of_relative_squared_differences x n p = Some S754_nan.
Proof.
  intros E Hi Hnan. rewrite statistic_spec by assumption. f_equal.
  unfold TestStatistic_spec. apply B64NaN.np_sum_nan.
  rewrite <- (B64NaN.term_nan x n p i Hnan).
  apply in_map. apply in_seq. lia.
Qed.

Lemma statistic_nan_probability_witness :
  sum_of_relative_squared_differences [1; 1] 2 [B64.ratio 1 2; S754_nan]
  = Some S754_nan.
Proof.
  apply (statistic_nan_probability [1; 1] 2 [B64.ratio 1 2; S754_nan] 1).
  - reflexivity.
  - simpl. lia.
  - reflexivity.
Defined.

(** ** The cells that call the two functions *)

(** X11. [power] packages the computation of cell 27: whenever the
    global [p] that cell takes its degrees of freedom from has as many
    entries as [p_sim], the cell computes
    [power(p_sim, n, alpha=0.05, p_null=p_null, nsim=size)], result and
    generator state alike. *)
Theorem power_packages_inline_computation
    {F : Type} `{Float64 F} (G : Type)
    (multinomial_rvs : Z -> list F -> nat -> G -> option (list (list Z)) * G)
    (chi2_cdf : F -> Z -> F)
    (p p_null p_sim : list F) (n : Z) (size : nat) (g : G) :
  length p = length p_sim ->
  rejection_rate_inline multinomial_rvs chi2_cdf p p_null p_sim n size g
  = power multinomial_rvs chi2_cdf p_sim n alpha_default (Some p_null)
      size g.
Proof.
  intros E. unfold rejection_rate_inline, power. now rewrite E.
Qed.

Lemma power_packages_inline_computation_witness :
  rejection_rate_inline Tape.rvs (step_cdf (B64.of_int 8))
    (repeat (B64.ratio 1 4) 4) (repeat (B64.ratio 1 4) 4) p_sim 10 2
    two_draws_of_10
  = power Tape.rvs (step_cdf (B64.of_int 8)) p_sim 10 alpha_default
      (Some (repeat (B64.ratio 1 4) 4)) 2 two_draws_of_10.
Proof.
  apply (power_packages_inline_computation Tape.state Tape.rvs
           (step_cdf (B64.of_int 8))
           (repeat (B64.ratio 1 4) 4) (repeat (B64.ratio 1 4) 4) p_sim 10 2
           two_draws_of_10).
  reflexivity.
Defined.

(** With a global [p] of another length the cell asks the CDF for
    other degrees of freedom than [power] does. *)
Example inline_computation_stale_p :
  rejection_rate_inline Tape.rvs cdf_zero_off_3
    [B64.ratio 1 2; B64.ratio 1 2] (repeat (B64.ratio 1 4) 4) p_sim 10 2
    two_draws_of_10
  = (Some (B64.of_int 0), [])
  /\ power Tape.rvs cdf_zero_off_3 p_sim 10 alpha_default
       (Some (repeat (B64.ratio 1 4) 4)) 2 two_draws_of_10
     = (Some (B64.ratio 1 2), []).
Proof. split; vm_compute; reflexivity. Qed.

(** ** The power curve (cell 34) *)

Section CurveFacts.
Context {F : Type} `{Float64 F}.
Variable G : Type.
Variable multinomial_rvs :
  Z -> list F -> nat -> G -> option (list (list Z)) * G.
Variable chi2_cdf : F -> Z -> F.

Lemma power_curve_success (p_sim : list F) (alpha : F) (nsim : nat)
    (nn : list Z) :
  forall (g : G) (vs : list F),
    fst (power_curve multinomial_rvs chi2_cdf p_sim alpha nsim nn g)
    = Some vs ->
    length vs = length nn
    /\ snd (power_curve multinomial_rvs chi2_cdf p_sim alpha nsim nn g)
       = after_draws multinomial_rvs p_sim nsim nn g
    /\ forall i, (i < length nn)%nat ->
         fst (power multinomial_rvs chi2_cdf p_sim (nth i nn 0) alpha None
                nsim (after_draws multinomial_rvs p_sim nsim (firstn i nn) g))
         = nth_error vs i.
Proof.
  induction nn as [|n nn IH]; intros g vs; cbn [power_curve].
  - unfold ret. cbn [fst snd]. intros [= <-].
    repeat split. intros i Hi. simpl in Hi. lia.
  - unfold bind.
    pose proof (power_state G multinomial_rvs chi2_cdf p_sim n alpha None
                  nsim g) as Hst.
    destruct (power multinomial_rvs chi2_cdf p_sim n alpha None nsim g)
      as [[v|] g1] eqn:Ep; [|discriminate].
    cbn [snd] in Hst.
    specialize (IH g1).
    destruct (power_curve multinomial_rvs chi2_cdf p_sim alpha nsim nn g1)
      as [[vs'|] g2] eqn:Ec; [|discriminate].
    unfold ret. cbn [fst snd]. intros [= <-].
    destruct (IH vs' eq_refl) as (IHl & IHs & IHi). cbn [fst snd] in *.
    split; [simpl; now rewrite IHl|]. split.
    + unfold after_draws in *. cbn [fold_left]. now rewrite <- Hst.
    + intros i Hi. destruct i as [|i].
      * cbn [nth firstn nth_error]. unfold after_draws. cbn [fold_left].
        now rewrite Ep.
      * cbn [nth firstn nth_error]. unfold after_draws in *.
        cbn [fold_left]. rewrite <- Hst. apply IHi. simpl in Hi. lia.
Qed.

End CurveFacts.

(** X12. When the list comprehension of cell 34 completes it holds one
    estimate per sample size of [nn], in order; the calls share the
    generator, which ends as the sampler leaves it after being called
    once per sample size in turn, and estimate [i] is what [power]
    returns at [nn_i] on the generator left by the sampler calls for the
    sample sizes before it. *)
Theorem power_curve_threads_generator
    {F : Type} `{Float64 F} (G : Type)
    (multinomial_rvs : Z -> list F -> nat -> G -> option (list (list Z)) * G)
    (chi2_cdf : F -> Z -> F)
    (p_sim : list F) (alpha : F) (nsim : nat) (nn : list Z)
    (g : G) (vs : list F) :
  fst (power_curve multinomial_rvs chi2_cdf p_sim alpha nsim nn g)
  = Some vs ->
  length vs = length nn
  /\ snd (power_curve multinomial_rvs chi2_cdf p_sim alpha nsim nn g)
     = after_draws multinomial_rvs p_sim nsim nn g
  /\ forall i, (i < length nn)%nat ->
       fst (power multinomial_rvs chi2_cdf p_sim (nth i nn 0) alpha None
              nsim (after_draws multinomial_rvs p_sim nsim (firstn i nn) g))
       = nth_error vs i.
Proof. apply power_curve_success. Qed.

(** Sample sizes 10 and 1000, one trial each. *)
Lemma power_curve_threads_generator_witness :
  match fst (power_curve Tape.rvs (step_cdf (B64.of_int 8)) p_sim
               alpha_default 1 [10; 1000]
               [[7; 1; 1; 1]; [262; 238; 251; 249]]) with
  | Some vs => length vs = 2%nat
  | None => False
  end.
Proof.
  destruct (fst (power_curve Tape.rvs (step_cdf (B64.of_int 8)) p_sim
                   alpha_default 1 [10; 1000]
                   [[7; 1; 1; 1]; [262; 238; 251; 249]])) as [vs|] eqn:E.
  - exact (proj1 (power_curve_threads_generator Tape.state Tape.rvs
                    (step_cdf (B64.of_int 8)) p_sim alpha_default 1
                    [10; 1000] [[7; 1; 1; 1]; [262; 238; 251; 249]] vs E)).
  - vm_compute in E. discriminate E.
Defined.
